(** * Soprano XRD: powder peaks, spectrum simulation and Le Bail refinement

    A shallow embedding of [soprano/calculate/xrd/xrd.py].

    - numpy [float64] values are Rocq's primitive binary64 floats, so that
      infinities, NaN and division by zero behave as they do in the
      program; [np.sum] adds in the order numpy does, pairwise in blocks
      along values that are contiguous in memory;
    - numpy arrays that the program shares or mutates live in a store of
      objects addressed by location; [copy.deepcopy] allocates, [np.copyto]
      writes in place;
    - Python exceptions are the [Raise] outcome of a state-and-exception
      monad; statements are sequenced in the order of the source. *)

From Stdlib Require Import Floats ZArith String List Lia Bool Sorted.
From stdpp Require Import base list.
Import ListNotations.

Local Open Scope Z_scope.

(* ===================================================================== *)
(** * Python outcomes *)

(** The exception classes the module raises or lets escape. *)
Inductive exn : Type :=
  | ValueError (msg : string)
  | TypeError (msg : string)
  | RuntimeWarning (msg : string)
  | UnboundLocalError (name : string)
  | ZeroDivisionError.

Inductive result (A : Type) : Type :=
  | Ok (a : A)
  | Raise (e : exn).
Arguments Ok {A} a.
Arguments Raise {A} e.

(** A computation over a mutable state [S]: it returns the state it leaves
    behind together with a value or the exception that escaped. *)
Definition Py (S A : Type) : Type := S -> S * result A.

Definition ret {S A} (a : A) : Py S A := fun s => (s, Ok a).
Definition raise {S A} (e : exn) : Py S A := fun s => (s, Raise e).
Definition bind {S A B} (m : Py S A) (k : A -> Py S B) : Py S B :=
  fun s => match m s with
           | (s', Ok a) => k a s'
           | (s', Raise e) => (s', Raise e)
           end.
Definition get {S} : Py S S := fun s => (s, Ok s).
Definition put {S} (s : S) : Py S unit := fun _ => (s, Ok tt).
Definition lift {S A} (r : result A) : Py S A := fun s => (s, r).

Declare Scope py_scope.
Delimit Scope py_scope with py.
Notation "'let!' x ':=' m 'in' k" := (bind m (fun x => k))
  (at level 10, x pattern, m at level 100, k at level 200) : py_scope.
Notation "m ;; k" := (bind m (fun _ => k))
  (at level 100, right associativity) : py_scope.
Local Open Scope py_scope.

(** The pure fragment: the same sequencing without a state. *)
Definition rbind {A B} (r : result A) (k : A -> result B) : result B :=
  match r with Ok a => k a | Raise e => Raise e end.

(* ===================================================================== *)
(** * numpy on float64 *)

Module np.

Definition inf : float := infinity.

(** A 1-D array is a list.  A 2-D array keeps its number of columns,
    which a list of rows loses when there is no row. *)
Record matrix : Type := Matrix { ncols : nat; rows : list (list float) }.

Definition broadcast_error : exn :=
  ValueError "operands could not be broadcast together".

(** The length two 1-D shapes broadcast to: equal, or one of them 1. *)
Definition broadcast_len (n m : nat) : result nat :=
  if Nat.eqb n m then Ok n
  else if Nat.eqb n 1 then Ok m
  else if Nat.eqb m 1 then Ok n
  else Raise broadcast_error.

(** The elements of a broadcast binary operation along one axis. *)
Definition bc {A B C} (f : A -> B -> C) (a : list A) (b : list B)
  : list C :=
  if Nat.eqb (length a) (length b) then zip_with f a b
  else match a, b with
       | [x], _ => map (f x) b
       | _, [y] => map (fun x => f x y) a
       | _, _ => []
       end.

(** [a op b] on two 1-D arrays. *)
Definition broadcast2 {A B C} (f : A -> B -> C) (a : list A) (b : list B)
  : result (list C) :=
  rbind (broadcast_len (length a) (length b)) (fun _ => Ok (bc f a b)).

(** [v[None, :] op m]: a row vector against every row of a matrix. *)
Definition row_op (f : float -> float -> float) (v : list float)
    (m : matrix) : result matrix :=
  rbind (broadcast_len (length v) (ncols m)) (fun c =>
  Ok (Matrix c (map (bc f v) (rows m)))).

(** [v[:, None] op m]: element [i] of a column vector against row [i]. *)
Definition col_op_l (f : float -> float -> float) (v : list float)
    (m : matrix) : result matrix :=
  rbind (broadcast_len (length v) (length (rows m))) (fun _ =>
  Ok (Matrix (ncols m) (bc (fun x row => map (f x) row) v (rows m)))).

(** [m op v[:, None]]. *)
Definition col_op_r (f : float -> float -> float) (m : matrix)
    (v : list float) : result matrix :=
  rbind (broadcast_len (length (rows m)) (length v)) (fun _ =>
  Ok (Matrix (ncols m)
        (bc (fun row x => map (fun c => f c x) row) (rows m) v))).

(** [a *= b] in place: [b] must broadcast to the shape of [a]. *)
Definition imul (a b : list float) : result (list float) :=
  if (Nat.eqb (length b) (length a) || Nat.eqb (length b) 1)%bool
  then Ok (bc PrimFloat.mul a b)
  else Raise (ValueError
         "non-broadcastable output operand with shape mismatch").

(** *** np.sum

    numpy adds float64 values that lie one after the other in memory
    with its partial pairwise summation, and values a stride apart one
    after the other.  The arrays of this module are the C-ordered results
    of element-wise operations. *)

(** The eight running sums after [k] more blocks of 8 values, and the
    values not added yet: [r[j] += a[i + j]] for [j] in [0, 8). *)
Fixpoint add_blocks (k : nat) (r a : list float) : list float * list float :=
  match k with
  | O => (r, a)
  | S k' => add_blocks k' (zip_with PrimFloat.add r (firstn 8 a)) (skipn 8 a)
  end.

(** A block of 8 to 128 values: eight running sums, one per position
    modulo 8, started on the first 8 values and added in pairs; then the
    values past the last multiple of 8, one after the other.  (An array
    without 8 values has no running sums and is not summed this way.) *)
Definition block_sum (a : list float) : float :=
  match add_blocks (length a / 8 - 1) (firstn 8 a) (skipn 8 a) with
  | ([r0; r1; r2; r3; r4; r5; r6; r7], rest) =>
      fold_left PrimFloat.add rest
        (((r0 + r1) + (r2 + r3)) + ((r4 + r5) + (r6 + r7)))%float
  | _ => fold_left PrimFloat.add a 0%float
  end.

(** [pairwise_sum(a, n)] of numpy's inner loop: fewer than 8 values are
    added one after the other from zero, up to 128 as one block, and
    more as the sum of two parts, the first of [n / 2] values less the
    remainder of [n / 2] by 8.  The recursion is on [fuel]; the length of
    [a] is enough of it. *)
Fixpoint pairwise_sum (fuel : nat) (a : list float) : float :=
  let n := length a in
  if (n <? 8)%nat then fold_left PrimFloat.add a 0%float
  else if (n <=? 128)%nat then block_sum a
  else match fuel with
       | O => block_sum a
       | S fuel' =>
           let n2 := (n / 2 - (n / 2) mod 8)%nat in
           (pairwise_sum fuel' (firstn n2 a)
            + pairwise_sum fuel' (skipn n2 a))%float
       end.

(** [np.sum] of a 1-D array: the pairwise sum of its values, added to
    the additive identity the result starts from. *)
Definition sum (a : list float) : float :=
  (0 + pairwise_sum (length a) a)%float.

(** [np.sum(m, axis=1)]: one sum per row; a row is contiguous. *)
Definition sum_axis1 (m : matrix) : list float := map sum (rows m).

(** [np.sum(m, axis=0)]: one sum per column.  The values of a column are
    a row apart, so the rows are added one after the other onto a row of
    zeros; but the single column of a one-column matrix is contiguous,
    and is added as a 1-D array is. *)
Definition sum_axis0 (m : matrix) : list float :=
  if Nat.eqb (ncols m) 1 then [sum (concat (rows m))]
  else fold_left (zip_with PrimFloat.add) (rows m) (repeat 0%float (ncols m)).

(** [np.maximum]: the larger operand, NaN if either is. *)
Definition maximum (a b : float) : float :=
  if (PrimFloat.leb b a || is_nan a)%bool then a else b.

(** [np.amax] of a 1-D array; an empty array has no maximum. *)
Definition amax (a : list float) : result float :=
  match a with
  | [] => Raise (ValueError
            "zero-size array to reduction operation maximum which has no identity")
  | x :: l => Ok (fold_left maximum l x)
  end.

(** [np.where(c(a), a, b)] with a scalar [b], element-wise. *)
Definition where_ (c : float -> bool) (a : list float) (b : float)
  : list float :=
  map (fun x => if c x then x else b) a.

(** [x ** 2.0] on a float64 array is the square. *)
Definition square (x : float) : float := PrimFloat.mul x x.

End np.

(* ===================================================================== *)
(** * The object store *)

(** A reflection: the Miller indices (h, k, l). *)
Definition hkl : Type := (Z * Z * Z)%type.

(** The arrays the fields of an [XraySpectrum] point to. *)
Inductive pyobj : Type :=
  | FloatArray (a : list float)
  | HklArray (a : list hkl)
  | HklGroups (a : list (list hkl)).

Abbreviation loc := nat (only parsing).

(** Objects are never freed: a new object takes the next location. *)
Abbreviation heap := (list pyobj) (only parsing).

Definition alloc (o : pyobj) : Py heap loc :=
  fun h => (h ++ [o], Ok (length h)).

Definition not_an_object : exn := TypeError "no such object".

Definition read (l : loc) : Py heap pyobj :=
  fun h => match h !! l with
           | Some o => (h, Ok o)
           | None => (h, Raise not_an_object)
           end.

(** [np.array(x, copy=False)] of a field that must hold floats. *)
Definition read_floats (l : loc) : Py heap (list float) :=
  let! o := read l in
  match o with
  | FloatArray a => ret a
  | _ => raise (TypeError "not a float array")
  end.

(** [np.copyto(dst, src)]: overwrite the array at [dst] in place. *)
Definition np_copyto (dst : loc) (src : list float) : Py heap unit :=
  let! old := read_floats dst in
  if (Nat.eqb (length src) (length old) || Nat.eqb (length src) 1)%bool
  then fun h => (<[dst := FloatArray (np.bc (fun _ x => x) old src)]> h, Ok tt)
  else raise np.broadcast_error.

(* ===================================================================== *)
(** * Records of the module *)

(** [XraySpectrum]: a named tuple; its array fields are references. *)
Record XraySpectrum : Type := mkXraySpectrum {
  theta2 : loc;
  hkl_groups : loc;
  hkl_unique : loc;
  invd : loc;
  intensity : loc;
  lambdax : float
}.

(** [XraySpectrumData]: the module never writes into these arrays, so the
    record holds their values. *)
Record XraySpectrumData : Type := mkXraySpectrumData {
  sd_theta2 : list float;
  sd_intensity : list float
}.

(** [copy.deepcopy] of one field: an object already copied is shared, as
    the memo of [deepcopy] has it. *)
Definition deepcopy_field (memo : list (loc * loc)) (l : loc)
  : Py heap (list (loc * loc) * loc) :=
  match list_find (fun p => Nat.eqb (fst p) l) memo with
  | Some (_, (_, l')) => ret (memo, l')
  | None =>
      let! o := read l in
      let! l' := alloc o in
      ret ((l, l') :: memo, l')
  end.

(** [copy.deepcopy(xpeaks)]: the fields are copied in order. *)
Definition deepcopy (x : XraySpectrum) : Py heap XraySpectrum :=
  let! (m, t) := deepcopy_field [] (theta2 x) in
  let! (m, g) := deepcopy_field m (hkl_groups x) in
  let! (m, u) := deepcopy_field m (hkl_unique x) in
  let! (m, d) := deepcopy_field m (invd x) in
  let! (m, i) := deepcopy_field m (intensity x) in
  ret (mkXraySpectrum t g u d i (lambdax x)).

(** A peak shape function [f(x, x0, *args)]: what [inspect.getargspec]
    reports of it, and its value at one axis point and one peak centre.
    The function works element-wise on arrays, as the module requires. *)
Record PeakFunc : Type := mkPeakFunc {
  pf_nargs : nat;       (* len(argspec.args) *)
  pf_ndefaults : nat;   (* len(argspec.defaults), 0 when None *)
  pf_varargs : bool;    (* argspec.varargs is not None *)
  pf_body : float -> float -> list float -> float
}.

Definition len {A} (l : list A) : Z := Z.of_nat (length l).

(** The float64 nearest to 0.1, the default Gaussian width. *)
Definition gauss_width : float := 0x1.999999999999ap-4%float.

(** The call [f(x[:, None], x0[None, :], *args)]: Python binds the
    positional arguments before the body runs. *)
Definition call_peak_func (f : PeakFunc) (x x0 args : list float)
  : result np.matrix :=
  let given := 2 + len args in
  if (given <? Z.of_nat (pf_nargs f) - Z.of_nat (pf_ndefaults f))
  then Raise (TypeError "missing required positional arguments")
  else if ((Z.of_nat (pf_nargs f) <? given) && negb (pf_varargs f))%bool
  then Raise (TypeError "too many positional arguments")
  else Ok (np.Matrix (length x0)
             (map (fun xi => map (fun cj => pf_body f xi cj args) x0) x)).

(* ===================================================================== *)
(** * The calculator, the simulator and the refiner *)

Section XRD.

(** [np.exp] on float64. *)
Variable np_exp : float -> float.

(** [_gauss_peak_default(x, x0, w)] *)
Definition _gauss_peak_default : PeakFunc :=
  mkPeakFunc 3 0 false (fun x x0 args =>
    match args with
    | w :: _ => np_exp (- np.square ((x - x0) / w))%float
    | [] => nan
    end).

(** ** XRDCalculator *)

(** The attributes of a calculator; [None] is an attribute that has not
    been assigned yet. *)
Record XRDCalculator : Type := mkXRDCalculator {
  c_lambdax : float;
  theta2_digits : Z;
  baseline : float;
  _peak_func : option PeakFunc;
  _peak_f_args : option (list float)
}.

Definition set_lambdax (v : float) : Py XRDCalculator unit :=
  fun self => (mkXRDCalculator v (theta2_digits self) (baseline self)
                 (_peak_func self) (_peak_f_args self), Ok tt).
Definition set_theta2_digits (v : Z) : Py XRDCalculator unit :=
  fun self => (mkXRDCalculator (c_lambdax self) v (baseline self)
                 (_peak_func self) (_peak_f_args self), Ok tt).
Definition set_baseline (v : float) : Py XRDCalculator unit :=
  fun self => (mkXRDCalculator (c_lambdax self) (theta2_digits self) v
                 (_peak_func self) (_peak_f_args self), Ok tt).
Definition set__peak_func (v : PeakFunc) : Py XRDCalculator unit :=
  fun self => (mkXRDCalculator (c_lambdax self) (theta2_digits self)
                 (baseline self) (Some v) (_peak_f_args self), Ok tt).
Definition set__peak_f_args (v : list float) : Py XRDCalculator unit :=
  fun self => (mkXRDCalculator (c_lambdax self) (theta2_digits self)
                 (baseline self) (_peak_func self) (Some v), Ok tt).

(** [len(x)] of a value that may be [None]. *)
Definition len_opt {S} (a : option (list float)) : Py S Z :=
  match a with
  | Some l => ret (len l)
  | None => raise (TypeError "object of type 'NoneType' has no len()")
  end.

(** [XRDCalculator.set_peak_func(self, peak_func=None, peak_f_args=None)] *)
Definition set_peak_func (peak_func : option PeakFunc)
    (peak_f_args : option (list float)) : Py XRDCalculator unit :=
  (* If there's no peak function args... *)
  let peak_f_args :=
    match peak_f_args with
    | None => match peak_func with
              | Some _ => Some []
              | None => Some [gauss_width]
              end
    | Some a => Some a
    end in
  let! (peak_func, peak_f_args) :=
    match peak_func with
    | Some f =>
        let nargs := Z.of_nat (pf_nargs f) in
        let nargs_def := Z.of_nat (pf_ndefaults f) in
        if nargs <? 2 then
          raise (ValueError "Invalid peak_func passed to set_peak_func")
        else
          let! n := len_opt peak_f_args in
          if (nargs - (2 + nargs_def)) >? n then
            raise (ValueError
              "Invalid number of peak_f_args passed to set_peak_func")
          else ret (f, peak_f_args)
    | None =>
        (* A gaussian here *)
        match peak_f_args with
        | None => ret (_gauss_peak_default, Some [gauss_width])
        | Some a => ret (_gauss_peak_default, Some (firstn 1 a))
        end
    end in
  set__peak_func peak_func ;;
  match peak_f_args with
  | Some a => set__peak_f_args a
  | None => ret tt
  end.

(** [XRDCalculator.__init__]: the attributes are assigned in order. *)
Definition __init__ (lambdax : float) (theta2_digits : Z)
    (baseline : float) (peak_func : option PeakFunc)
    (peak_f_args : option (list float)) : Py XRDCalculator unit :=
  set_lambdax lambdax ;;
  set_theta2_digits 6 ;;
  set_baseline baseline ;;
  set_peak_func peak_func peak_f_args.

(** The object [__init__] starts from: no attribute assigned yet (the
    numeric fields hold a placeholder until their assignment). *)
Definition blank : XRDCalculator :=
  mkXRDCalculator 0%float 0 0%float None None.

(** [XRDCalculator(lambdax, theta2_digits, baseline, peak_func,
    peak_f_args)] *)
Definition new_XRDCalculator (lambdax : float) (theta2_digits : Z)
    (baseline : float) (peak_func : option PeakFunc)
    (peak_f_args : option (list float)) : result XRDCalculator :=
  match __init__ lambdax theta2_digits baseline peak_func peak_f_args
          blank with
  | (self, Ok _) => Ok self
  | (_, Raise e) => Raise e
  end.

(** ** xrd_spec_simul *)

(** [xrd_spec_simul(xpeaks, th2_axis, peak_func, peak_f_args, baseline)].
    [th2_axis] is a 1-D array by its type, so the test on its shape
    always passes. *)
Definition xrd_spec_simul (xpeaks : XraySpectrum) (th2_axis : list float)
    (peak_func : option PeakFunc) (peak_f_args : option (list float))
    (baseline : float) : Py heap (XraySpectrumData * np.matrix) :=
  let! peaks_th2 := read_floats (theta2 xpeaks) in
  let! peaks_int := read_floats (intensity xpeaks) in
  let! (peak_func, peak_f_args) :=
    match peak_func with
    | Some f =>
        let! n := len_opt peak_f_args in
        if Z.of_nat (pf_nargs f) >? 2 + n then
          raise (ValueError "Invalid peak_func passed to xrd_spec_simul")
        else ret (f, default [] peak_f_args)
    | None =>
        (* A gaussian here *)
        match peak_f_args with
        | None => ret (_gauss_peak_default, [gauss_width])
        | Some a => ret (_gauss_peak_default, firstn 1 a)
        end
    end in
  (* So here we are. Actual simulation! *)
  let! shape := lift (call_peak_func peak_func th2_axis peaks_th2
                        peak_f_args) in
  let! simul_peaks := lift (np.row_op PrimFloat.mul peaks_int shape) in
  let simul_spec :=
    map (fun s => s + 1 * baseline)%float (np.sum_axis1 simul_peaks) in
  ret (mkXraySpectrumData th2_axis simul_spec, simul_peaks).

(** ** xrd_exp_dataset *)

(** [xrd_exp_dataset(th2_axis, int_axis)] on two 1-D arrays. *)
Definition xrd_exp_dataset (th2_axis int_axis : list float)
  : result XraySpectrumData :=
  if negb (Nat.eqb (length th2_axis) (length int_axis)) then
    Raise (ValueError "Invalid dataset passed to xrd_exp_dataset")
  else Ok (mkXraySpectrumData th2_axis int_axis).

(** ** Utility functions of the refiner *)

(** [_Rwp_eval(simul_int, exp_int)] *)
Definition _Rwp_eval (simul_int exp_int : list float) : result float :=
  let weights := map (fun e => 1 / e)%float exp_int in
  rbind (np.broadcast2 PrimFloat.sub exp_int simul_int) (fun d =>
  rbind (np.broadcast2 PrimFloat.mul weights (map np.square d)) (fun t =>
  rbind (np.broadcast2 PrimFloat.mul weights (map np.square exp_int))
    (fun u =>
  Ok (PrimFloat.sqrt (np.sum t / np.sum u)%float)))).

(** [_leBail_rescale_I(simul_peaks, simul_spec, exp_spec)] *)
Definition _leBail_rescale_I (simul_peaks : np.matrix)
    (simul_spec exp_spec : list float) : result (list float) :=
  let sum_peaks := np.sum_axis0 simul_peaks in
  (* It could be zero somewhere, fix that *)
  let sum_peaks :=
    np.where_ (fun s => PrimFloat.ltb 0 s) sum_peaks np.inf in
  rbind (np.col_op_l PrimFloat.mul exp_spec simul_peaks) (fun t =>
  rbind (np.col_op_r PrimFloat.div t simul_spec) (fun q =>
  np.broadcast2 PrimFloat.div (np.sum_axis0 q) sum_peaks)).

(** ** xrd_leBail_Ifit *)

(** The local variables the loop of the refiner reads and assigns.
    [rwp] and [i] are unbound until the first iteration assigns them. *)
Record LeBailState : Type := mkLeBailState {
  peaks_int : list float;
  simul_spec : XraySpectrumData;
  simul_peaks : np.matrix;
  rwp0 : float;
  rwp : option float;
  i : option nat
}.

(** [abs((rwp-rwp0)/rwp)] *)
Definition delta_rwp (rwp rwp0 : float) : float :=
  PrimFloat.abs ((rwp - rwp0) / rwp)%float.

(** The statements before the loop: the copy, the starting heights, the
    first simulation and its Rwp.  The record types already are
    [XraySpectrum] and [XraySpectrumData], so the two tests on the types
    of the arguments pass. *)
Definition leBail_setup (xpeaks : XraySpectrum)
    (exp_spec : XraySpectrumData) (peak_func : option PeakFunc)
    (peak_f_args : option (list float)) (baseline : float)
  : Py heap (XraySpectrum * LeBailState) :=
  (* Copy xpeaks so that the original object will stay unaltered *)
  let! xpeaks := deepcopy xpeaks in
  (* Fetch the data *)
  let th2_axis := sd_theta2 exp_spec in
  let int_axis := sd_intensity exp_spec in
  (* Find a suitable starting height for the peaks *)
  let! cur := read_floats (intensity xpeaks) in
  let! top := lift (np.amax int_axis) in
  let peaks_int := map (fun x => x * 0 + top / 4)%float cur in
  (* Perform the first simulation *)
  let! (simul_spec, simul_peaks) :=
    xrd_spec_simul xpeaks th2_axis peak_func peak_f_args baseline in
  (* Calculate Rwp *)
  let! rwp0 := lift (_Rwp_eval (sd_intensity simul_spec) int_axis) in
  ret (xpeaks,
       mkLeBailState peaks_int simul_spec simul_peaks rwp0 None None).

Section Loop.

Variable xpeaks : XraySpectrum.
Variable exp_spec : XraySpectrumData.
Variable peak_func : option PeakFunc.
Variable peak_f_args : option (list float).
Variable baseline : float.
Variable rwp_tol : float.

(** The body of the loop up to the new Rwp (iteration [n]). *)
Definition leBail_body (n : nat) (st : LeBailState)
  : Py heap LeBailState :=
  let int_axis := sd_intensity exp_spec in
  (* Perform a correction *)
  let! scale := lift (_leBail_rescale_I (simul_peaks st)
                        (sd_intensity (simul_spec st)) int_axis) in
  let! peaks_int := lift (np.imul (peaks_int st) scale) in
  (* Store *)
  np_copyto (intensity xpeaks) peaks_int ;;
  (* Recalculate *)
  let! (simul_spec, simul_peaks) :=
    xrd_spec_simul xpeaks (sd_theta2 exp_spec) peak_func peak_f_args
      baseline in
  (* Calculate Rwp *)
  let! rwp := lift (_Rwp_eval (sd_intensity simul_spec) int_axis) in
  ret (mkLeBailState peaks_int simul_spec simul_peaks (rwp0 st)
         (Some rwp) (Some n)).

(** [if delta_rwp < rwp_tol: break], on the state the body leaves. *)
Definition leBail_break (st : LeBailState) : bool :=
  match rwp st with
  | Some r => PrimFloat.ltb (delta_rwp r (rwp0 st)) rwp_tol
  | None => false
  end.

(** [rwp0 = rwp] *)
Definition leBail_next (st : LeBailState) : LeBailState :=
  mkLeBailState (peaks_int st) (simul_spec st) (simul_peaks st)
    (default (rwp0 st) (rwp st)) (rwp st) (i st).

(** [for i in range(max_iter)], [todo] iterations left from [n]. *)
Fixpoint leBail_loop (todo n : nat) (st : LeBailState)
  : Py heap LeBailState :=
  match todo with
  | O => ret st
  | S todo' =>
      let! st' := leBail_body n st in
      if leBail_break st' then ret st'
      else leBail_loop todo' (S n) (leBail_next st')
  end.

End Loop.

(** [xrd_leBail_Ifit(xpeaks, exp_spec, peak_func, peak_f_args, baseline,
    rwp_tol, max_iter)] *)
Definition xrd_leBail_Ifit (xpeaks : XraySpectrum)
    (exp_spec : XraySpectrumData) (peak_func : option PeakFunc)
    (peak_f_args : option (list float)) (baseline rwp_tol : float)
    (max_iter : Z)
  : Py heap (XraySpectrum * XraySpectrumData * np.matrix * float) :=
  let! (xpeaks, st) :=
    leBail_setup xpeaks exp_spec peak_func peak_f_args baseline in
  (* Now the iterations *)
  let! st := leBail_loop xpeaks exp_spec peak_func peak_f_args baseline
               rwp_tol (Z.to_nat max_iter) 0 st in
  match rwp st with
  | Some r => ret (xpeaks, simul_spec st, simul_peaks st, r)
  | None => raise (UnboundLocalError "rwp")
  end.

(** ** powder_peaks *)

(** [range(lo, hi)] *)
Definition range (lo hi : Z) : list Z :=
  map (fun n => lo + Z.of_nat n) (seq 0 (Z.to_nat (hi - lo))).

(** An integer index as a float64. *)
Definition float_of_Z (z : Z) : float :=
  match z with
  | Z0 => 0%float
  | Zpos _ => PrimFloat.of_uint63 (Uint63.of_Z z)
  | Zneg _ => (- PrimFloat.of_uint63 (Uint63.of_Z (- z)))%float
  end.

(** [np.array(np.meshgrid(hrange, krange, lrange)).reshape((3, -1))]:
    with the default 'xy' indexing the second range is the outermost
    and the third the innermost. *)
Definition meshgrid (hrange krange lrange : list Z) : list hkl :=
  k ← krange; h ← hrange; l ← lrange; [(h, k, l)].

(** [np.where(mask)[0]]: the indices at which the mask holds. *)
Definition np_where (mask : list bool) : list nat :=
  map fst (filter (fun p => snd p = true) (zip (seq 0 (length mask)) mask)).

(** [a[idx]] with an index array. *)
Definition np_take {A} (d : A) (a : list A) (idx : list nat) : list A :=
  map (fun n => nth n a d) idx.

(** The inverse d-spacing [sqrt(hkl . M . hkl)] of one grid column. *)
Definition inv_d (hkl2d2 : list (list float)) (r : hkl) : float :=
  let '(h, k, l) := r in
  let v := [float_of_Z h; float_of_Z k; float_of_Z l] in
  let t := map (fun row => np.sum (zip_with PrimFloat.mul row v)) hkl2d2 in
  PrimFloat.sqrt (np.sum (zip_with PrimFloat.mul v t)).

(** *** np.unique *)

(** The order numpy sorts float64 by: NaN after every number. *)
Definition np_lt (a b : float) : bool :=
  (PrimFloat.ltb a b || (is_nan b && negb (is_nan a)))%bool.

(** One step of the stable sort on (value, index) pairs. *)
Fixpoint sort_insert (x : float * nat) (l : list (float * nat))
  : list (float * nat) :=
  match l with
  | [] => [x]
  | y :: l' => if np_lt (fst y) (fst x) then y :: sort_insert x l'
               else x :: y :: l'
  end.

(** [ar.argsort(kind='mergesort')] paired with [ar[perm]]: a stable
    sort, equal values stay in index order. *)
Definition stable_sort (l : list (float * nat)) : list (float * nat) :=
  foldr sort_insert [] l.

(** [aux[1:] != aux[:-1]] *)
Fixpoint changes (prev : float) (aux : list float) : list bool :=
  match aux with
  | [] => []
  | x :: aux' => negb (PrimFloat.eqb x prev) :: changes x aux'
  end.

(** [np.concatenate(([True], aux[1:] != aux[:-1]))] *)
Definition unique_flag (aux : list float) : list bool :=
  match aux with
  | [] => []
  | x :: aux' => true :: changes x aux'
  end.

(** [a[flag]] with a boolean mask. *)
Definition mask {A} (flag : list bool) (a : list A) : list A :=
  map snd (filter (fun p => fst p = true) (zip flag a)).

(** [np.cumsum(flag) - 1] *)
Fixpoint cumsum_pred (seen : nat) (flag : list bool) : list nat :=
  match flag with
  | [] => []
  | b :: flag' =>
      let seen' := if b then S seen else seen in
      pred seen' :: cumsum_pred seen' flag'
  end.

(** [inv_idx[perm] = iflag] *)
Definition scatter (n : nat) (perm iflag : list nat) : list nat :=
  fold_left (fun inv p => <[fst p := snd p]> inv) (zip perm iflag)
    (repeat O n).

(** [np.unique(ar, return_index=True, return_inverse=True)] *)
Definition np_unique (ar : list float)
  : list float * list nat * list nat :=
  let sorted := stable_sort (zip ar (seq 0 (length ar))) in
  let perm := map snd sorted in
  let aux := map fst sorted in
  let flag := unique_flag aux in
  (mask flag aux, mask flag perm,
   scatter (length ar) perm (cumsum_pred 0 flag)).

Section Peaks.

(** The collaborators of the enumeration. *)
Variable Atoms : Type.
Variable Setting : Type.
(** [utils.cart2abc(atoms.get_cell())] *)
Variable cart2abc_cell : Atoms -> list (list float).
(** [int(spglib.get_symmetry_dataset(atoms)['hall_number'])] *)
Variable hall_number : Atoms -> Z.
(** The two lookups of [sel_rules]; [None] when they raise
    [ValueError]. *)
Variable get_sel_rule_from_hall : Z -> option (hkl -> bool).
Variable get_sel_rule_from_international :
  Z -> Setting -> option (hkl -> bool).
Variable hkl2d2_matgen : list (list float) -> list (list float).
Variable minimum_supcell : float -> list (list float) -> Z * Z * Z.
(** [np.arcsin], and [np.round] to a number of digits. *)
Variable np_arcsin : float -> float.
Variable np_round : float -> Z -> float.

(** [np.pi] *)
Definition np_pi : float := 0x1.921fb54442d18p+1%float.

Definition symmetry_not_found : exn :=
  RuntimeWarning
    "Required symmetry not found - No selection rules will be applied to XRD powder spectrum".

(** The first statements of [powder_peaks]: the lattice and the
    selection rule. *)
Definition resolve_lattice (atoms : option Atoms)
    (latt_abc : option (list (list float))) (n : Z) (o : Setting)
  : result (list (list float) * (hkl -> bool)) :=
  (* First a sanity check *)
  match atoms, latt_abc with
  | Some a, None =>
      (* Define the lattice *)
      let latt_abc := cart2abc_cell a in
      (* And the symmetry *)
      let h := hall_number a in
      match get_sel_rule_from_hall h with
      | Some sel_rule => Ok (latt_abc, sel_rule)
      | None => (* Not found? *) Raise symmetry_not_found
      end
  | None, Some latt_abc =>
      if negb (forallb (fun r => Nat.eqb (length r) 3) latt_abc
               && Nat.eqb (length latt_abc) 2)
      then Raise (ValueError
             "Invalid argument latt_abc passed to xrd_pwd_peaks")
      else
        match get_sel_rule_from_international n o with
        | Some sel_rule => Ok (latt_abc, sel_rule)
        | None => (* Not found? *) Raise symmetry_not_found
        end
  | _, _ =>
      Raise (ValueError
        "One and only one between atoms and latt_abc must be passed to powder_peaks")
  end.

(** The rounded angles of the reflections that pass the bounds on the
    inverse distance and the selection rule, with the reflections and
    their inverse distances, in grid order. *)
Definition selected_grid (self : XRDCalculator)
    (latt_abc : list (list float)) (sel_rule : hkl -> bool)
  : result (list hkl * list float * list float) :=
  if PrimFloat.eqb (c_lambdax self) 0 then Raise ZeroDivisionError
  else
  (* Upper limit to the inverse distance *)
  let inv_d_max := (2 / c_lambdax self)%float in
  let hkl2d2 := hkl2d2_matgen latt_abc in
  let '(bh, bk, bl) := minimum_supcell inv_d_max hkl2d2 in
  let hrange := range (- bh) (bh + 1) in
  let krange := range (- bk) (bk + 1) in
  let lrange := range (- bl) (bl + 1) in
  let hkl_grid := meshgrid hrange krange lrange in
  let inv_d_grid := map (inv_d hkl2d2) hkl_grid in
  (* Some will still have inv_d > inv_d_max, we fix that here *)
  let valid_i :=
    np_where (map (fun d => PrimFloat.ltb d inv_d_max
                            && PrimFloat.ltb 0 d) inv_d_grid) in
  let hkl_grid := np_take (0, 0, 0) hkl_grid valid_i in
  let inv_d_grid := np_take 0%float inv_d_grid valid_i in
  (* Now applying the selection rule; np.apply_along_axis refuses an
     array without columns *)
  match hkl_grid with
  | [] => Raise (ValueError
            "Cannot apply_along_axis when any iteration dimensions are 0")
  | _ =>
      let selected_i := np_where (map sel_rule hkl_grid) in
      let hkl_grid := np_take (0, 0, 0) hkl_grid selected_i in
      let inv_d_grid := np_take 0%float inv_d_grid selected_i in
      let theta_grid :=
        map (fun d => np_arcsin (d / inv_d_max)%float) inv_d_grid in
      Ok (hkl_grid, inv_d_grid,
          map (fun t => np_round (2 * t * 180 / np_pi)%float
                          (theta2_digits self)) theta_grid)
  end.

(** [XRDCalculator.powder_peaks(self, atoms, latt_abc, n, o)] *)
Definition powder_peaks (self : XRDCalculator) (atoms : option Atoms)
    (latt_abc : option (list (list float))) (n : Z) (o : Setting)
  : Py heap XraySpectrum :=
  let! (latt_abc, sel_rule) := lift (resolve_lattice atoms latt_abc n o) in
  let! (hkl_grid, inv_d_grid, angles) :=
    lift (selected_grid self latt_abc sel_rule) in
  (* This function also takes care of the sorting *)
  let '(unique, index, inverse) := np_unique angles in
  let peak_n := length unique in
  let hkl_sorted :=
    map (fun g => np_take (0, 0, 0) hkl_grid
                    (np_where (map (Nat.eqb g) inverse)))
      (seq 0 peak_n) in
  let hkl_unique := np_take (0, 0, 0) hkl_grid index in
  let invd := np_take 0%float inv_d_grid index in
  let! p_theta2 := alloc (FloatArray unique) in
  let! p_hkl := alloc (HklGroups hkl_sorted) in
  let! p_hkl_unique := alloc (HklArray hkl_unique) in
  let! p_invd := alloc (FloatArray invd) in
  let! p_intensity := alloc (FloatArray (repeat 0%float peak_n)) in
  ret (mkXraySpectrum p_theta2 p_hkl p_hkl_unique p_invd p_intensity
         (c_lambdax self)).

End Peaks.

End XRD.

(* ===================================================================== *)
(** * The statements the code is compared with *)

(** [v[i]] and [m[i][j]]. *)
Definition at_ (v : list float) (i : nat) : float := nth i v 0%float.
Definition entry (m : np.matrix) (i j : nat) : float :=
  nth j (nth i (np.rows m) []) 0%float.

(** The sum over [i] in [0, n) of [f i], added as numpy adds along axis 0
    the values of one column of a matrix of [w] columns: in index order
    from zero, and as [np.sum] adds a 1-D array when the column is the
    only one. *)
Definition sigma (w n : nat) (f : nat -> float) : float :=
  let terms := map f (seq 0 n) in
  if Nat.eqb w 1 then np.sum terms else fold_left PrimFloat.add terms 0%float.

(** The divisor [D] of peak [j]: the column sum [sum_i c[i][j]] when
    that is positive, and +infinity otherwise. *)
Definition guarded_sum (c : np.matrix) (j : nat) : float :=
  let den := sigma (np.ncols c) (length (np.rows c)) (fun i => entry c i j) in
  if PrimFloat.ltb 0 den then den else np.inf.

(** The rescale factor of peak [j] as the code computes it:
    [(sum_i obs[i] * c[i][j] / calc[i]) / D]. *)
Definition rescale_factor (c : np.matrix) (calc obs : list float) (j : nat)
  : float :=
  (sigma (np.ncols c) (length (np.rows c))
     (fun i => at_ obs i * entry c i j / at_ calc i)
   / guarded_sum c j)%float.

(** The numerator of peak [j] as the specification words it: a term
    whose [calc[i]] is zero counts for nothing. *)
Definition claimed_numerator (c : np.matrix) (calc obs : list float)
    (j : nat) : float :=
  sigma (np.ncols c) (length (np.rows c))
    (fun i => if PrimFloat.eqb (at_ calc i) 0 then 0
              else at_ obs i * entry c i j / at_ calc i)%float.

(** The rescale factor of peak [j] as the specification words it: that
    numerator, and a column sum equal to zero is replaced by +infinity. *)
Definition claimed_factor (c : np.matrix) (calc obs : list float) (j : nat)
  : float :=
  let den :=
    sigma (np.ncols c) (length (np.rows c)) (fun i => entry c i j) in
  (claimed_numerator c calc obs j
   / (if PrimFloat.eqb den 0 then np.inf else den))%float.

(** The inputs [_leBail_rescale_I] is called on by the refiner: a
    contribution matrix with one row per axis point, and one calculated
    and one observed value per axis point. *)
Definition well_shaped (c : np.matrix) (calc obs : list float) : Prop :=
  Forall (fun r => length r = np.ncols c) (np.rows c)
  /\ length calc = length (np.rows c)
  /\ length obs = length (np.rows c).

(** A spectrum without a point equal to zero ([calc[i] == 0] is false
    everywhere). *)
Definition nowhere_zero (calc : list float) : Prop :=
  Forall (fun x => PrimFloat.eqb x 0 = false) calc.

(** The relative change the specification words:
    [|rwp - rwp_previous| / rwp_previous]. *)
Definition claimed_delta (rwp rwp0 : float) : float :=
  (PrimFloat.abs (rwp - rwp0) / rwp0)%float.

Definition claimed_break (rwp_tol : float) (st : LeBailState) : bool :=
  match rwp st with
  | Some r => PrimFloat.ltb (claimed_delta r (rwp0 st)) rwp_tol
  | None => false
  end.

(** The state the body of iteration [n + k] leaves when the loop enters
    iteration [n] in state [st] and none of the iterations [n .. n + k - 1]
    breaks: the bodies run one after the other, with [rwp0 = rwp] in
    between and no test. *)
Fixpoint leBail_after (np_exp : float -> float) (xpeaks : XraySpectrum)
    (exp_spec : XraySpectrumData) (peak_func : option PeakFunc)
    (peak_f_args : option (list float)) (baseline : float) (n k : nat)
    (st : LeBailState) : Py heap LeBailState :=
  match k with
  | O => leBail_body np_exp xpeaks exp_spec peak_func peak_f_args baseline
           n st
  | S k' =>
      let! s := leBail_body np_exp xpeaks exp_spec peak_func peak_f_args
                  baseline n st in
      leBail_after np_exp xpeaks exp_spec peak_func peak_f_args baseline
        (S n) k' (leBail_next s)
  end.

(* ===================================================================== *)
(** * Predicates of the statements *)

(** A computation that only reads the state. *)
Definition read_only {S A} (m : Py S A) : Prop := forall s, fst (m s) = s.

(** [h'] still holds, unchanged, the objects below location [n]. *)
Definition keeps (n : nat) (h h' : heap) : Prop :=
  (length h <= length h')%nat /\ forall l, (l < n)%nat -> h' !! l = h !! l.

(** A computation that, run on a store of at least [n] objects, keeps the
    first [n] and returns a value satisfying [Q]. *)
Definition frames {A} (n : nat) (m : Py heap A) (Q : A -> Prop) : Prop :=
  forall h h' r, (n <= length h)%nat -> m h = (h', r) ->
    keeps n h h' /\ forall a, r = Ok a -> Q a.

(** The copies [deepcopy] has made so far all lie above [n]. *)
Definition memo_above (n : nat) (memo : list (loc * loc)) : Prop :=
  Forall (fun p => (n <= snd p)%nat) memo.

(** The five array fields of a record lie above [n]. *)
Definition fields_above (n : nat) (x : XraySpectrum) : Prop :=
  (n <= theta2 x)%nat /\ (n <= hkl_groups x)%nat /\ (n <= hkl_unique x)%nat
  /\ (n <= invd x)%nat /\ (n <= intensity x)%nat.

(** Every copy [deepcopy] has made holds what its original holds. *)
Definition memo_copies (h : list pyobj) (memo : list (loc * loc)) : Prop :=
  Forall (fun p => exists o, h !! fst p = Some o /\ h !! snd p = Some o) memo.

(** The order of float64, and the floats that are numbers. *)
Definition float_le (a b : float) : Prop := PrimFloat.leb a b = true.
Definition float_lt (a b : float) : Prop := PrimFloat.ltb a b = true.
Definition number (a : float) : Prop := is_nan a = false.

(** The angle [powder_peaks] gives a reflection of inverse distance [d]. *)
Definition rounded_angle (np_arcsin : float -> float)
    (np_round : float -> Z -> float) (self : XRDCalculator) (d : float)
  : float :=
  np_round (2 * np_arcsin (d / (2 / c_lambdax self)) * 180 / np_pi)%float
    (theta2_digits self).

(* ===================================================================== *)
(** * Sample data

    The runs below pass their own peak function, so [np.exp] is never
    called in them; it is given a value that says so. *)

Definition no_exp (x : float) : float := nan.

(** A Lorentzian [1 / (1 + (x - x0)**2)] without extra parameters. *)
Definition lorentz : PeakFunc :=
  mkPeakFunc 2 0 false (fun x x0 _ => 1 / (1 + (x - x0) * (x - x0)))%float.

(** [bad_func(x)] and [good_func(x, w, a, b, c=0.2)] of the test suite. *)
Definition bad_func : PeakFunc := mkPeakFunc 1 0 false (fun x _ _ => x).
Definition good_func : PeakFunc :=
  mkPeakFunc 5 1 false (fun x w args =>
    match args with
    | a :: b :: c :: _ => x * w * a * b * c
    | a :: b :: _ => x * w * a * b * 0x1.999999999999ap-3
    | _ => nan
    end)%float.

(** A store holding one peak set: two peaks at 1 and 3 degrees. *)
Definition sample_store (ints : list float) : list pyobj :=
  [ FloatArray [1; 3]%float;
    HklGroups [[(1, 0, 0)]; [(0, 1, 0)]];
    HklArray [(1, 0, 0); (0, 1, 0)];
    FloatArray [0.5; 0.25]%float;
    FloatArray ints ].

Definition sample_peaks : XraySpectrum :=
  mkXraySpectrum 0%nat 1%nat 2%nat 3%nat 4%nat 1.5%float.

Definition sample_exp : XraySpectrumData :=
  mkXraySpectrumData [0; 1; 2; 3; 4]%float [1; 4; 2; 2; 1]%float.

(** The float64 nearest to 1e-2, the default of [rwp_tol]. *)
Definition default_rwp_tol : float := 0x1.47ae147ae147bp-7%float.

Definition sample_calc : XRDCalculator :=
  mkXRDCalculator 1.5%float 6 0%float (Some lorentz) (Some []).

(** The refiner's state when it enters the loop on the sample data, with
    caller's intensities 2 and 7. *)
Definition sample_start : list pyobj * result (XraySpectrum * LeBailState) :=
  leBail_setup no_exp sample_peaks sample_exp (Some lorentz) (Some [])
    0%float (sample_store [2; 7]%float).
Definition sample_h0 : list pyobj := fst sample_start.
Definition sample_copy : XraySpectrum :=
  match snd sample_start with Ok (x, _) => x | Raise _ => sample_peaks end.
Definition sample_st0 : LeBailState :=
  match snd sample_start with
  | Ok (_, st) => st
  | Raise _ => mkLeBailState [] sample_exp (np.Matrix 0 []) 0%float None None
  end.

(** At most five iterations from there, with [rwp_tol = 0.75]. *)
Definition sample_loop : list pyobj * result LeBailState :=
  leBail_loop no_exp sample_copy sample_exp (Some lorentz) (Some []) 0%float
    0.75%float 5 0 sample_st0 sample_h0.
Definition sample_final : LeBailState :=
  match snd sample_loop with Ok st => st | Raise _ => sample_st0 end.

(** A toy instance of the collaborators of the enumeration: a cubic
    lattice of unit cell 1, only space group 1 known, the identity for the
    arc sine, and a rounding that leaves numbers as they are. *)
Definition toy_hall (n : Z) : option (hkl -> bool) :=
  if n =? 1 then Some (fun _ => true) else None.
Definition toy_international (n : Z) (o : unit) : option (hkl -> bool) :=
  toy_hall n.
Definition toy_hkl2d2 (latt : list (list float)) : list (list float) :=
  [[1; 0; 0]; [0; 1; 0]; [0; 0; 1]]%float.
Definition toy_supcell (inv_d_max : float) (m : list (list float))
  : Z * Z * Z := (1, 1, 1).
Definition toy_arcsin (x : float) : float := x.
Definition toy_round (x : float) (digits : Z) : float :=
  if is_nan x then 0%float else x.
Definition toy_peaks :=
  powder_peaks unit unit (fun _ => [[1; 1; 1]; [1; 1; 1]]%float)
    (fun _ => 0) toy_hall toy_international toy_hkl2d2 toy_supcell
    toy_arcsin toy_round.

(** A calculator of wavelength 1: the reflections of the toy lattice with
    inverse distance below 2 give three peaks. *)
Definition toy_calc : XRDCalculator :=
  mkXRDCalculator 1%float 6 0%float (Some lorentz) (Some []).
Definition toy_run : list pyobj * result XraySpectrum :=
  toy_peaks toy_calc None (Some [[1; 1; 1]; [1; 1; 1]]%float) 1 tt [].
Definition toy_spectrum : XraySpectrum :=
  match snd toy_run with Ok x => x | Raise _ => sample_peaks end.

Definition cubic_abc : list (list float) := [[1; 1; 1]; [1; 1; 1]]%float.

(** A second lookup of selection rules: group 1 accepts every reflection,
    group 2 those whose indices add up to an even number, as a
    body-centred lattice does. *)
Definition centred_international (n : Z) (o : unit) : option (hkl -> bool) :=
  if n =? 1 then Some (fun _ => true)
  else if n =? 2 then Some (fun '(h, k, l) => Z.even (h + k + l))
  else None.
Definition centred_run (n : Z) : list pyobj * result XraySpectrum :=
  powder_peaks unit unit (fun _ => cubic_abc) (fun _ => 0) toy_hall
    centred_international toy_hkl2d2 toy_supcell toy_arcsin toy_round
    toy_calc None (Some cubic_abc) n tt [].
Definition centred_spectrum (n : Z) : XraySpectrum :=
  match snd (centred_run n) with Ok x => x | Raise _ => sample_peaks end.

(* ===================================================================== *)
(** * Reasoning about computations *)

Lemma bind_inv {S A B} (m : Py S A) (k : A -> Py S B) s s' r :
  bind m k s = (s', r) ->
  (exists s1 a, m s = (s1, Ok a) /\ k a s1 = (s', r)) \/
  (exists e, m s = (s', Raise e) /\ r = Raise e).
Proof.
  unfold bind. destruct (m s) as [s1 [a|e]]; intros H.
  - left. eauto.
  - right. inversion H; subst. eauto.
Qed.

Lemma bind_ok {S A B} (m : Py S A) (k : A -> Py S B) s s1 a :
  m s = (s1, Ok a) -> bind m k s = k a s1.
Proof. unfold bind. intros ->. reflexivity. Qed.

Lemma bind_raise {S A B} (m : Py S A) (k : A -> Py S B) s s1 e :
  m s = (s1, Raise e) -> bind m k s = (s1, Raise e).
Proof. unfold bind. intros ->. reflexivity. Qed.

Lemma read_only_ret {S A} (a : A) : read_only (S := S) (ret a).
Proof. intros s. reflexivity. Qed.

Lemma read_only_raise {S A} e : read_only (S := S) (A := A) (raise e).
Proof. intros s. reflexivity. Qed.

Lemma read_only_lift {S A} (r : result A) : read_only (S := S) (lift r).
Proof. intros s. reflexivity. Qed.

Lemma read_only_bind {S A B} (m : Py S A) (k : A -> Py S B) :
  read_only m -> (forall a, read_only (k a)) -> read_only (bind m k).
Proof.
  intros Hm Hk s. unfold bind. specialize (Hm s).
  destruct (m s) as [s1 [a|e]]; simpl in *; subst; [apply Hk | reflexivity].
Qed.

Lemma read_only_read l : read_only (read l).
Proof. intros h. unfold read. destruct (h !! l); reflexivity. Qed.

Lemma read_only_read_floats l : read_only (read_floats l).
Proof.
  apply read_only_bind; [apply read_only_read|].
  intros [a|a|a]; first [apply read_only_ret | apply read_only_raise].
Qed.

Lemma read_only_len_opt {S} a : read_only (S := S) (len_opt a).
Proof. destruct a; [apply read_only_ret | apply read_only_raise]. Qed.

Lemma read_only_eq {S A} (m : Py S A) s s' r :
  read_only m -> m s = (s', r) -> s' = s.
Proof. intros H E. specialize (H s). rewrite E in H. exact H. Qed.

Create HintDb py.
(** One statement of a run that ended without an exception. *)
Ltac ok_step E :=
  first
    [ apply bind_inv in E as [(? & ? & _ & E) | (? & _ & ?)];
      [| discriminate ]
    | match type of E with
      | context [let '(_, _) := ?x in _] => destruct x
      end ].

#[local] Hint Resolve read_only_ret read_only_raise read_only_lift
  read_only_read read_only_read_floats read_only_len_opt : py.

(** The simulator leaves the store as it found it. *)
Lemma read_only_xrd_spec_simul np_exp xpeaks th2_axis peak_func peak_f_args
    baseline :
  read_only (xrd_spec_simul np_exp xpeaks th2_axis peak_func peak_f_args
               baseline).
Proof.
  unfold xrd_spec_simul.
  do 2 (apply read_only_bind; [auto with py |]; intros ?).
  apply read_only_bind.
  - destruct peak_func as [f|].
    + apply read_only_bind; [auto with py|]. intros n.
      destruct (_ >? _); auto with py.
    + destruct peak_f_args; auto with py.
  - intros [f args].
    do 2 (apply read_only_bind; [auto with py |]; intros ?).
    auto with py.
Qed.

(* ===================================================================== *)
(** * The store under the refiner *)

Lemma keeps_refl n h : keeps n h h.
Proof. split; [lia | reflexivity]. Qed.

Lemma keeps_trans n h1 h2 h3 : keeps n h1 h2 -> keeps n h2 h3 -> keeps n h1 h3.
Proof.
  intros [L1 K1] [L2 K2]. split; [lia|].
  intros l Hl. rewrite K2, K1 by assumption. reflexivity.
Qed.

Lemma frames_read_only {A} n (m : Py heap A) :
  read_only m -> frames n m (fun _ => True).
Proof.
  intros Hm h h' r _ E. apply read_only_eq in E as ->; [|assumption].
  split; [apply keeps_refl | trivial].
Qed.

Lemma frames_weaken {A} n (m : Py heap A) (Q Q' : A -> Prop) :
  (forall a, Q a -> Q' a) -> frames n m Q -> frames n m Q'.
Proof.
  intros HQ Hm h h' r Hn E. destruct (Hm h h' r Hn E) as [K P].
  split; [assumption | auto].
Qed.

Lemma frames_bind {A B} n (m : Py heap A) (k : A -> Py heap B) Q R :
  frames n m Q -> (forall a, Q a -> frames n (k a) R) ->
  frames n (bind m k) R.
Proof.
  intros Hm Hk h h' r Hn E.
  apply bind_inv in E as [(h1 & a & E1 & E2) | (e & E1 & ->)].
  - destruct (Hm _ _ _ Hn E1) as [K1 Qa].
    assert (Hn1 : (n <= length h1)%nat) by (destruct K1; lia).
    destruct (Hk a (Qa a eq_refl) _ _ _ Hn1 E2) as [K2 Rb].
    split; [eapply keeps_trans; eassumption | assumption].
  - destruct (Hm _ _ _ Hn E1) as [K1 _]. split; [assumption|].
    intros a Ha. discriminate Ha.
Qed.

Lemma frames_ret {A} n (a : A) (Q : A -> Prop) : Q a -> frames n (ret a) Q.
Proof.
  intros HQ h h' r _ E. inversion E; subst.
  split; [apply keeps_refl|]. intros b Hb. inversion Hb; subst. assumption.
Qed.

Lemma frames_raise {A} n e (Q : A -> Prop) : frames n (raise e) Q.
Proof.
  intros h h' r _ E. inversion E; subst.
  split; [apply keeps_refl|]. intros b Hb. discriminate Hb.
Qed.

(** A new object lies above every object of the store it joins. *)
Lemma frames_alloc n o : frames n (alloc o) (fun l => (n <= l)%nat).
Proof.
  intros h h' r Hn E. unfold alloc in E. inversion E; subst. split.
  - split; [rewrite length_app; lia|].
    intros l Hl. apply lookup_app_l. lia.
  - intros a Ha. inversion Ha; subst. assumption.
Qed.

(** Writing into an object above [n] keeps the objects below. *)
Lemma frames_np_copyto n dst src :
  (n <= dst)%nat -> frames n (np_copyto dst src) (fun _ => True).
Proof.
  intros Hd h h' r Hn E. unfold np_copyto in E.
  apply bind_inv in E as [(h1 & old & E1 & E2) | (e & E1 & ->)].
  - apply read_only_eq in E1 as ->; [|apply read_only_read_floats].
    destruct (_ || _); inversion E2; subst; (split; [|trivial]).
    + split; [rewrite length_insert; lia|].
      intros l Hl. apply list_lookup_insert_ne. lia.
    + apply keeps_refl.
  - apply read_only_eq in E1 as ->; [|apply read_only_read_floats].
    split; [apply keeps_refl | trivial].
Qed.

Lemma frames_deepcopy_field n memo l :
  memo_above n memo ->
  frames n (deepcopy_field memo l)
    (fun r => memo_above n (fst r) /\ (n <= snd r)%nat).
Proof.
  intros Hm. unfold deepcopy_field.
  destruct (list_find _ memo) as [[k [l0 l']]|] eqn:F.
  - apply frames_ret. split; [assumption|].
    apply list_find_Some in F as (Hk & _ & _).
    unfold memo_above in Hm. rewrite Forall_lookup in Hm.
    apply (Hm _ _ Hk).
  - eapply frames_bind; [apply frames_read_only, read_only_read|].
    intros o _. eapply frames_bind; [apply frames_alloc|].
    intros l' Hl'. apply frames_ret. split; [|assumption].
    constructor; assumption.
Qed.

Lemma frames_deepcopy n x :
  frames n (deepcopy x)
    (fun x' => fields_above n x' /\ lambdax x' = lambdax x).
Proof.
  unfold deepcopy.
  eapply frames_bind; [apply frames_deepcopy_field, Forall_nil_2|].
  intros [m1 t] [M1 T]; simpl in *.
  eapply frames_bind; [apply frames_deepcopy_field, M1|].
  intros [m2 g] [M2 G]; simpl in *.
  eapply frames_bind; [apply frames_deepcopy_field, M2|].
  intros [m3 u] [M3 U]; simpl in *.
  eapply frames_bind; [apply frames_deepcopy_field, M3|].
  intros [m4 d] [M4 D]; simpl in *.
  eapply frames_bind; [apply frames_deepcopy_field, M4|].
  intros [m5 i] [M5 I]; simpl in *.
  apply frames_ret. unfold fields_above; simpl.
  repeat split; assumption.
Qed.

Lemma frames_leBail_setup np_exp n xpeaks exp_spec peak_func peak_f_args
    baseline :
  frames n (leBail_setup np_exp xpeaks exp_spec peak_func peak_f_args baseline)
    (fun r => fields_above n (fst r) /\ lambdax (fst r) = lambdax xpeaks).
Proof.
  unfold leBail_setup.
  eapply frames_bind; [apply frames_deepcopy|]. intros x' Hx'.
  eapply frames_bind; [apply frames_read_only, read_only_read_floats|].
  intros cur _.
  eapply frames_bind; [apply frames_read_only, read_only_lift|].
  intros top _.
  eapply frames_bind; [apply frames_read_only, read_only_xrd_spec_simul|].
  intros [sp pk] _.
  eapply frames_bind; [apply frames_read_only, read_only_lift|].
  intros r0 _. apply frames_ret. exact Hx'.
Qed.

Lemma frames_leBail_body np_exp n xpeaks exp_spec peak_func peak_f_args
    baseline k st :
  (n <= intensity xpeaks)%nat ->
  frames n (leBail_body np_exp xpeaks exp_spec peak_func peak_f_args baseline
              k st) (fun _ => True).
Proof.
  intros Hi. unfold leBail_body.
  eapply frames_bind; [apply frames_read_only, read_only_lift|].
  intros scale _.
  eapply frames_bind; [apply frames_read_only, read_only_lift|].
  intros pk _.
  eapply frames_bind; [apply frames_np_copyto, Hi|]. intros _ _.
  eapply frames_bind; [apply frames_read_only, read_only_xrd_spec_simul|].
  intros [sp pks] _.
  eapply frames_bind; [apply frames_read_only, read_only_lift|].
  intros r0 _. apply frames_ret. trivial.
Qed.

Lemma frames_leBail_loop np_exp n xpeaks exp_spec peak_func peak_f_args
    baseline rwp_tol todo :
  (n <= intensity xpeaks)%nat ->
  forall k st,
  frames n (leBail_loop np_exp xpeaks exp_spec peak_func peak_f_args baseline
              rwp_tol todo k st) (fun _ => True).
Proof.
  intros Hi. induction todo as [|todo IH]; intros k st; simpl.
  - apply frames_ret. trivial.
  - eapply frames_bind; [apply frames_leBail_body, Hi|].
    intros st' _. destruct (leBail_break rwp_tol st').
    + apply frames_ret. trivial.
    + apply IH.
Qed.

Lemma frames_xrd_leBail_Ifit np_exp xpeaks exp_spec peak_func peak_f_args
    baseline rwp_tol max_iter n :
  frames n (xrd_leBail_Ifit np_exp xpeaks exp_spec peak_func peak_f_args
              baseline rwp_tol max_iter)
    (fun r => fields_above n (fst (fst (fst r)))
              /\ lambdax (fst (fst (fst r))) = lambdax xpeaks).
Proof.
  unfold xrd_leBail_Ifit.
  eapply frames_bind; [apply frames_leBail_setup|].
  intros [x' st] [Hf Hl]; simpl in *.
  eapply frames_bind.
  - apply frames_leBail_loop. destruct Hf as (_ & _ & _ & _ & Hi). exact Hi.
  - intros st' _. destruct (rwp st').
    + apply frames_ret. simpl. auto.
    + apply frames_raise.
Qed.

(* ===================================================================== *)
(** * The refiner and the caller's peak set *)

(** C7: after [xrd_leBail_Ifit], whatever its outcome, every object the
    caller's store held, the arrays of the caller's [XraySpectrum] among
    them, is what it was before the call; the record returned is made of
    objects allocated by the call, with the caller's wavelength. *)
Theorem leBail_keeps_caller_store np_exp xpeaks exp_spec peak_func
    peak_f_args baseline rwp_tol max_iter (h h' : list pyobj) r :
  xrd_leBail_Ifit np_exp xpeaks exp_spec peak_func peak_f_args baseline
    rwp_tol max_iter h = (h', r) ->
  (forall l, (l < length h)%nat -> h' !! l = h !! l) /\
  (forall x' s m w, r = Ok (x', s, m, w) ->
     fields_above (length h) x' /\ lambdax x' = lambdax xpeaks).
Proof.
  intros E.
  destruct (frames_xrd_leBail_Ifit np_exp xpeaks exp_spec peak_func
              peak_f_args baseline rwp_tol max_iter (length h) h h' r
              (le_n _) E) as [[_ K] Q].
  split; [exact K|].
  intros x' s m w ->. exact (Q _ eq_refl).
Qed.

(** The state the statements before the loop leave has no [rwp] yet. *)
Lemma leBail_setup_rwp_unbound np_exp xpeaks exp_spec peak_func peak_f_args
    baseline (h h' : list pyobj) x' st :
  leBail_setup np_exp xpeaks exp_spec peak_func peak_f_args baseline h
    = (h', Ok (x', st)) ->
  rwp st = None.
Proof.
  unfold leBail_setup. intros E.
  repeat ok_step E.
  inversion E; subst. reflexivity.
Qed.

(** C9: with [max_iter <= 0] the refiner never returns a result, and when
    the statements before the loop succeed the exception that escapes is
    the unbound local [rwp]. *)
Theorem leBail_needs_one_iteration np_exp xpeaks exp_spec peak_func
    peak_f_args baseline rwp_tol max_iter (h : list pyobj) :
  max_iter <= 0 ->
  (forall h' r,
     xrd_leBail_Ifit np_exp xpeaks exp_spec peak_func peak_f_args baseline
       rwp_tol max_iter h <> (h', Ok r)) /\
  (forall h1 x' st,
     leBail_setup np_exp xpeaks exp_spec peak_func peak_f_args baseline h
       = (h1, Ok (x', st)) ->
     xrd_leBail_Ifit np_exp xpeaks exp_spec peak_func peak_f_args baseline
       rwp_tol max_iter h = (h1, Raise (UnboundLocalError "rwp"))).
Proof.
  intros Hm.
  assert (Z0 : Z.to_nat max_iter = O) by lia.
  assert (Hrun : forall h1 x' st,
     leBail_setup np_exp xpeaks exp_spec peak_func peak_f_args baseline h
       = (h1, Ok (x', st)) ->
     xrd_leBail_Ifit np_exp xpeaks exp_spec peak_func peak_f_args baseline
       rwp_tol max_iter h = (h1, Raise (UnboundLocalError "rwp"))).
  { intros h1 x' st E. unfold xrd_leBail_Ifit.
    rewrite (bind_ok _ _ _ _ _ E), Z0. simpl.
    unfold bind, ret. rewrite (leBail_setup_rwp_unbound _ _ _ _ _ _ _ _ _ _ E).
    reflexivity. }
  split; [|exact Hrun].
  intros h' r E.
  destruct (leBail_setup np_exp xpeaks exp_spec peak_func peak_f_args
              baseline h) as [h1 [[x' st]|e]] eqn:S.
  - rewrite (Hrun _ _ _ eq_refl) in E. discriminate.
  - unfold xrd_leBail_Ifit in E. rewrite (bind_raise _ _ _ _ _ S) in E.
    discriminate.
Qed.

Lemma leBail_keeps_caller_store_witness :
  let h := sample_store [2; 7]%float in
  let run := xrd_leBail_Ifit no_exp sample_peaks sample_exp (Some lorentz)
               (Some []) 0%float default_rwp_tol 3 h in
  (forall l, (l < length h)%nat -> fst run !! l = h !! l) /\
  (forall x' s m w, snd run = Ok (x', s, m, w) ->
     fields_above (length h) x' /\ lambdax x' = lambdax sample_peaks).
Proof.
  intros h run.
  apply (leBail_keeps_caller_store no_exp sample_peaks sample_exp
           (Some lorentz) (Some []) 0%float default_rwp_tol 3 h
           (fst run) (snd run)).
  vm_compute. reflexivity.
Defined.

Lemma leBail_needs_one_iteration_witness :
  let h := sample_store [2; 7]%float in
  xrd_leBail_Ifit no_exp sample_peaks sample_exp (Some lorentz) (Some [])
    0%float default_rwp_tol 0 h
  = (fst (leBail_setup no_exp sample_peaks sample_exp (Some lorentz)
            (Some []) 0%float h),
     Raise (UnboundLocalError "rwp")).
Proof.
  intros h.
  destruct (leBail_setup no_exp sample_peaks sample_exp (Some lorentz)
              (Some []) 0%float h) as [h1 [[x' st]|e]] eqn:S.
  - apply (proj2 (leBail_needs_one_iteration no_exp sample_peaks sample_exp
                    (Some lorentz) (Some []) 0%float default_rwp_tol 0 h
                    ltac:(lia)) h1 x' st S).
  - vm_compute in S. discriminate S.
Defined.

(* ===================================================================== *)
(** * The peak function of the calculator *)

(** Whatever exception [set_peak_func] raises, it raises before the first
    assignment to an attribute. *)
Lemma set_peak_func_raise_unchanged np_exp peak_func peak_f_args self self' e :
  set_peak_func np_exp peak_func peak_f_args self = (self', Raise e) ->
  self' = self.
Proof.
  unfold set_peak_func. intros E.
  apply bind_inv in E as [(s1 & [f a] & E1 & E2) | (e' & E1 & _)].
  - exfalso. unfold bind, set__peak_func in E2.
    destruct a; discriminate E2.
  - destruct peak_func as [f|].
    + destruct (_ <? 2).
      * inversion E1; reflexivity.
      * apply bind_inv in E1 as [(s1 & n & E1 & E2) | (e'' & E1 & _)].
        -- apply read_only_eq in E1 as ->; [|apply read_only_len_opt].
           destruct (_ >? _); inversion E2; reflexivity.
        -- apply read_only_eq in E1; [assumption | apply read_only_len_opt].
    + destruct peak_f_args; discriminate E1.
Qed.

(** C10: a function with fewer than 2 positional parameters, or with more
    required extra parameters than arguments supplied, makes
    [set_peak_func] raise [ValueError] on a calculator whose attributes,
    [_peak_func] and [_peak_f_args] among them, are exactly as before. *)
Theorem set_peak_func_atomic np_exp f peak_f_args self :
  (Z.of_nat (pf_nargs f) < 2 \/
   len (default [] peak_f_args)
     < Z.of_nat (pf_nargs f) - (2 + Z.of_nat (pf_ndefaults f))) ->
  exists msg,
    set_peak_func np_exp (Some f) peak_f_args self
    = (self, Raise (ValueError msg)).
Proof.
  intros H. unfold set_peak_func.
  destruct (Z.of_nat (pf_nargs f) <? 2) eqn:N.
  - eexists. reflexivity.
  - destruct H as [H | H]; [lia|].
    assert (G : (Z.of_nat (pf_nargs f) - (2 + Z.of_nat (pf_ndefaults f))
                 >? len (default [] peak_f_args)) = true) by lia.
    destruct peak_f_args as [a|]; unfold default, id in G;
      unfold bind, len_opt, ret; rewrite G; eexists; reflexivity.
Qed.

Lemma set_peak_func_atomic_witness :
  exists msg,
    set_peak_func no_exp (Some good_func) (Some [0%float]) sample_calc
    = (sample_calc, Raise (ValueError msg)).
Proof.
  apply (set_peak_func_atomic no_exp good_func (Some [0%float]) sample_calc).
  right. vm_compute. reflexivity.
Defined.

(** C5: whatever [theta2_digits] is passed, the calculator is the one built
    with 6, and its angles are rounded to 6 digits. *)
Theorem init_ignores_theta2_digits np_exp lambdax digits baseline
    peak_func peak_f_args :
  new_XRDCalculator np_exp lambdax digits baseline peak_func peak_f_args
  = new_XRDCalculator np_exp lambdax 6 baseline peak_func peak_f_args
  /\ match new_XRDCalculator np_exp lambdax digits baseline peak_func
             peak_f_args with
     | Ok self => theta2_digits self = 6
     | Raise _ => True
     end.
Proof.
  split; [reflexivity|].
  unfold new_XRDCalculator.
  destruct (__init__ _ _ _ _ _ _ _) as [self [u|e]] eqn:E; [|trivial].
  unfold __init__ in E. unfold bind at 1 2 3 in E. simpl in E.
  unfold set_peak_func in E.
  apply bind_inv in E as [(s1 & [f a] & E1 & E2) | (e' & _ & D)];
    [|discriminate D].
  assert (S1 : s1 = mkXRDCalculator lambdax 6 baseline None None).
  { destruct peak_func as [g|].
    - destruct (_ <? 2); [discriminate E1|].
      apply bind_inv in E1 as [(s2 & n & E1 & E3) | (e'' & _ & D)];
        [|discriminate D].
      apply read_only_eq in E1 as ->; [|apply read_only_len_opt].
      destruct (_ >? _); inversion E3; reflexivity.
    - destruct peak_f_args; inversion E1; reflexivity. }
  subst s1. unfold bind, set__peak_func, set__peak_f_args, ret in E2.
  simpl in E2. destruct a; inversion E2; reflexivity.
Qed.

(* ===================================================================== *)
(** * The enumeration of the peaks *)

Section PeaksFacts.

Variable Atoms : Type.
Variable Setting : Type.
Variable cart2abc_cell : Atoms -> list (list float).
Variable hall_number : Atoms -> Z.
Variable get_sel_rule_from_hall : Z -> option (hkl -> bool).
Variable get_sel_rule_from_international :
  Z -> Setting -> option (hkl -> bool).
Variable hkl2d2_matgen : list (list float) -> list (list float).
Variable minimum_supcell : float -> list (list float) -> Z * Z * Z.
Variable np_arcsin : float -> float.
Variable np_round : float -> Z -> float.

Let peaks :=
  powder_peaks Atoms Setting cart2abc_cell hall_number get_sel_rule_from_hall
    get_sel_rule_from_international hkl2d2_matgen minimum_supcell np_arcsin
    np_round.

(** C2 (what the code does instead): when the lookup of the selection rule
    fails, for a structure or for a well-shaped lattice, [powder_peaks]
    raises [RuntimeWarning]: no peak set is returned and no object is
    allocated. *)
Theorem powder_peaks_lookup_failure_aborts self n o (h : list pyobj) :
  (forall atoms,
     get_sel_rule_from_hall (hall_number atoms) = None ->
     peaks self (Some atoms) None n o h = (h, Raise symmetry_not_found)) /\
  (forall latt_abc,
     get_sel_rule_from_international n o = None ->
     length latt_abc = 2%nat ->
     Forall (fun r => length r = 3%nat) latt_abc ->
     peaks self None (Some latt_abc) n o h = (h, Raise symmetry_not_found)).
Proof.
  split.
  - intros atoms L. unfold peaks, powder_peaks, resolve_lattice.
    rewrite L. reflexivity.
  - intros latt_abc L H2 H3. unfold peaks, powder_peaks, resolve_lattice.
    rewrite L.
    assert (F : forallb (fun r => Nat.eqb (length r) 3) latt_abc = true).
    { apply forallb_forall. intros r Hr. apply Nat.eqb_eq.
      rewrite Forall_forall in H3. apply H3.
      apply list_elem_of_In. exact Hr. }
    rewrite F, H2. reflexivity.
Qed.

End PeaksFacts.

Lemma powder_peaks_lookup_failure_aborts_witness :
  toy_peaks sample_calc (Some tt) None 0 tt [] = ([], Raise symmetry_not_found)
  /\ toy_peaks sample_calc None (Some cubic_abc) 230 tt []
     = ([], Raise symmetry_not_found).
Proof.
  split.
  - apply (proj1 (powder_peaks_lookup_failure_aborts unit unit
             (fun _ => [[1; 1; 1]; [1; 1; 1]]%float) (fun _ => 0) toy_hall
             toy_international toy_hkl2d2 toy_supcell toy_arcsin
             toy_round sample_calc 0 tt [])).
    reflexivity.
  - apply (proj2 (powder_peaks_lookup_failure_aborts unit unit
             (fun _ => [[1; 1; 1]; [1; 1; 1]]%float) (fun _ => 0) toy_hall
             toy_international toy_hkl2d2 toy_supcell toy_arcsin
             toy_round sample_calc 230 tt [])).
    + reflexivity.
    + reflexivity.
    + repeat constructor.
Defined.

(* ===================================================================== *)
(** * The two tests of a peak function *)

(** The test of [set_peak_func], as the claim states it. *)
Lemma set_peak_func_accepts np_exp f peak_f_args self :
  2 <= Z.of_nat (pf_nargs f) ->
  Z.of_nat (pf_nargs f) - (2 + Z.of_nat (pf_ndefaults f))
    <= len (default [] peak_f_args) ->
  set_peak_func np_exp (Some f) peak_f_args self
  = (mkXRDCalculator (c_lambdax self) (theta2_digits self) (baseline self)
       (Some f) (Some (default [] peak_f_args)), Ok tt).
Proof.
  intros H1 H2. unfold set_peak_func.
  assert (N : (Z.of_nat (pf_nargs f) <? 2) = false) by lia.
  assert (G : (Z.of_nat (pf_nargs f) - (2 + Z.of_nat (pf_ndefaults f))
               >? len (default [] peak_f_args)) = false) by lia.
  rewrite N.
  destruct peak_f_args as [a|]; unfold default, id in G |- *;
    unfold bind, len_opt, ret; rewrite G; reflexivity.
Qed.

(** C6 (where the two entry points part): [bad_func(x)] is refused by
    [set_peak_func] with [ValueError] but passes the test of
    [xrd_spec_simul], whose call of it then fails with [TypeError];
    [good_func(x, w, a, b, c=0.2)] with two arguments is accepted by
    [set_peak_func] and refused by [xrd_spec_simul] with [ValueError]. *)
Theorem peak_func_tests_differ np_exp :
  let h := sample_store [2; 7]%float in
  let axis := [0; 1; 2]%float in
  set_peak_func np_exp (Some bad_func) None sample_calc
    = (sample_calc,
       Raise (ValueError "Invalid peak_func passed to set_peak_func"))
  /\ xrd_spec_simul np_exp sample_peaks axis (Some bad_func) (Some [])
       0%float h
     = (h, Raise (TypeError "too many positional arguments"))
  /\ snd (set_peak_func np_exp (Some good_func) (Some [0; 0]%float)
            sample_calc) = Ok tt
  /\ xrd_spec_simul np_exp sample_peaks axis (Some good_func)
       (Some [0; 0]%float) 0%float h
     = (h, Raise (ValueError "Invalid peak_func passed to xrd_spec_simul")).
Proof.
  intros h axis. repeat split; reflexivity.
Qed.

(* ===================================================================== *)
(** * When the loop stops *)

Section LoopFacts.

Variable np_exp : float -> float.
Variable xpeaks : XraySpectrum.
Variable exp_spec : XraySpectrumData.
Variable peak_func : option PeakFunc.
Variable peak_f_args : option (list float).
Variable baseline rwp_tol : float.

Let body := leBail_body np_exp xpeaks exp_spec peak_func peak_f_args baseline.
Let loop :=
  leBail_loop np_exp xpeaks exp_spec peak_func peak_f_args baseline rwp_tol.
Let after :=
  leBail_after np_exp xpeaks exp_spec peak_func peak_f_args baseline.

(** The body binds [rwp] and the loop variable. *)
Lemma leBail_body_binds n st (h h' : list pyobj) st' :
  body n st h = (h', Ok st') ->
  rwp0 st' = rwp0 st /\ i st' = Some n /\ exists r, rwp st' = Some r.
Proof.
  unfold body, leBail_body. intros E.
  repeat ok_step E.
  inversion E; subst. simpl. eauto.
Qed.

(** The loop runs no more than [todo] iterations, and every state it
    returns after at least one is the state some iteration's body left. *)
Lemma leBail_loop_stops todo : forall n st (h h' : list pyobj) final,
  loop (S todo) n st h = (h', Ok final) ->
  exists k sk,
    (k <= todo)%nat
    /\ after n k st h = (h', Ok sk)
    /\ (forall j, (j < k)%nat -> exists hj sj,
          after n j st h = (hj, Ok sj) /\ leBail_break rwp_tol sj = false)
    /\ ((leBail_break rwp_tol sk = true /\ final = sk)
        \/ (leBail_break rwp_tol sk = false /\ k = todo
            /\ final = leBail_next sk)).
Proof.
  induction todo as [|todo IH]; intros n st h h' final E.
  - simpl in E. unfold loop, leBail_loop in E.
    apply bind_inv in E as [(h1 & st' & B & E) | (e & _ & D)];
      [|discriminate D].
    exists O, st'.
    destruct (leBail_break rwp_tol st') eqn:Bk; inversion E; subst;
      (split; [lia|]); (split; [exact B|]); (split; [intros j Hj; lia|]);
      auto.
  - unfold loop in E. simpl in E. fold loop in E.
    apply bind_inv in E as [(h1 & st' & B & E) | (e & _ & D)];
      [|discriminate D].
    destruct (leBail_break rwp_tol st') eqn:Bk.
    + inversion E; subst. exists O, final.
      split; [lia|]. split; [exact B|]. split; [intros j Hj; lia|]. auto.
    + change (loop (S todo) (S n) (leBail_next st') h1 = (h', Ok final)) in E.
      destruct (IH _ _ _ _ _ E) as (k & sk & Hk & A & Before & Last).
      exists (S k), sk. split; [lia|]. split.
      { unfold after. simpl. fold after.
        unfold body in B. rewrite (bind_ok _ _ _ _ _ B). exact A. }
      split.
      { intros [|j] Hj.
        - exists h1, st'. split; [exact B | exact Bk].
        - destruct (Before j ltac:(lia)) as (hj & sj & Aj & Bj).
          exists hj, sj. split; [|exact Bj].
          unfold after. simpl. fold after.
          unfold body in B. rewrite (bind_ok _ _ _ _ _ B). exact Aj. }
      destruct Last as [[L1 L2] | (L1 & L2 & L3)]; [left; auto | right].
      repeat split; auto.
Qed.

Lemma leBail_after_binds k : forall n st (h hk : list pyobj) sk,
  after n k st h = (hk, Ok sk) ->
  i sk = Some (n + k)%nat /\ exists r, rwp sk = Some r.
Proof.
  induction k as [|k IH]; intros n st h hk sk A.
  - apply leBail_body_binds in A as (_ & I & R).
    rewrite Nat.add_0_r. auto.
  - unfold after in A. simpl in A. fold after in A.
    apply bind_inv in A as [(h1 & s1 & _ & A) | (e & _ & D)];
      [|discriminate D].
    apply IH in A as [I R]. split; [|exact R].
    rewrite I. f_equal. lia.
Qed.

(** C3 (amended): a run of [max_iter >= 1] iterations that returns went
    through the bodies of iterations [0 .. k] for some [k < max_iter]; the
    test [abs((rwp - rwp0) / rwp) < rwp_tol], the change relative to the
    new Rwp, failed after each of the iterations before [k]; and either it
    held after iteration [k], where the loop stopped, or it failed there
    too and [k] was the last of the [max_iter] iterations. *)
Theorem leBail_loop_stops_on_relative_change max_iter st (h h' : list pyobj)
    final :
  1 <= max_iter ->
  loop (Z.to_nat max_iter) O st h = (h', Ok final) ->
  exists k sk r,
    Z.of_nat k < max_iter
    /\ after O k st h = (h', Ok sk)
    /\ rwp sk = Some r
    /\ i final = Some k
    /\ (forall j, (j < k)%nat -> exists hj sj rj,
          after O j st h = (hj, Ok sj) /\ rwp sj = Some rj
          /\ PrimFloat.ltb (delta_rwp rj (rwp0 sj)) rwp_tol = false)
    /\ ((PrimFloat.ltb (delta_rwp r (rwp0 sk)) rwp_tol = true
         /\ final = sk)
        \/ (PrimFloat.ltb (delta_rwp r (rwp0 sk)) rwp_tol = false
            /\ Z.of_nat (S k) = max_iter /\ final = leBail_next sk)).
Proof.
  intros Hm E.
  destruct (Z.to_nat max_iter) as [|todo] eqn:T; [lia|].
  destruct (leBail_loop_stops todo _ _ _ _ _ E)
    as (k & sk & Hk & A & Before & Last).
  destruct (leBail_after_binds _ _ _ _ _ _ A) as [Ik [r Rk]].
  assert (Bk : leBail_break rwp_tol sk
               = PrimFloat.ltb (delta_rwp r (rwp0 sk)) rwp_tol)
    by (unfold leBail_break; rewrite Rk; reflexivity).
  exists k, sk, r.
  split; [lia|]. split; [exact A|]. split; [exact Rk|]. split.
  { destruct Last as [[_ ->] | (_ & _ & ->)]; [exact Ik | exact Ik]. }
  split.
  { intros j Hj. destruct (Before j Hj) as (hj & sj & Aj & Bj).
    destruct (leBail_after_binds _ _ _ _ _ _ Aj) as [_ [rj Rj]].
    exists hj, sj, rj. split; [exact Aj|]. split; [exact Rj|].
    unfold leBail_break in Bj. rewrite Rj in Bj. exact Bj. }
  rewrite <- Bk.
  destruct Last as [[L1 L2] | (L1 & L2 & L3)]; [left; auto | right].
  repeat split; auto. lia.
Qed.

End LoopFacts.

Lemma leBail_loop_stops_on_relative_change_witness :
  exists k sk r,
    Z.of_nat k < 5
    /\ leBail_after no_exp sample_copy sample_exp (Some lorentz) (Some [])
         0%float O k sample_st0 sample_h0 = (fst sample_loop, Ok sk)
    /\ rwp sk = Some r
    /\ i sample_final = Some k
    /\ (forall j, (j < k)%nat -> exists hj sj rj,
          leBail_after no_exp sample_copy sample_exp (Some lorentz)
            (Some []) 0%float O j sample_st0 sample_h0 = (hj, Ok sj)
          /\ rwp sj = Some rj
          /\ PrimFloat.ltb (delta_rwp rj (rwp0 sj)) 0.75 = false)
    /\ ((PrimFloat.ltb (delta_rwp r (rwp0 sk)) 0.75 = true
         /\ sample_final = sk)
        \/ (PrimFloat.ltb (delta_rwp r (rwp0 sk)) 0.75 = false
            /\ Z.of_nat (S k) = 5 /\ sample_final = leBail_next sk)).
Proof.
  apply (leBail_loop_stops_on_relative_change no_exp sample_copy sample_exp
           (Some lorentz) (Some []) 0%float 0.75%float 5 sample_st0
           sample_h0 (fst sample_loop) sample_final).
  - lia.
  - vm_compute. reflexivity.
Defined.

(** C3 (as stated) fails on the sample data with [rwp_tol = 0.75]: after
    the first iteration the change relative to the previous Rwp is below
    the tolerance, yet the test of the code fails and the loop goes on to
    run three iterations. *)
Lemma relative_change_counterexample :
  match leBail_body no_exp sample_copy sample_exp (Some lorentz) (Some [])
          0%float 0 sample_st0 sample_h0 with
  | (_, Ok st1) =>
      claimed_break 0.75 st1 = true
      /\ leBail_break 0.75 st1 = false
      /\ i sample_final = Some 2%nat
  | (_, Raise _) => False
  end.
Proof. vm_compute. repeat split; reflexivity. Qed.

(* ===================================================================== *)
(** * The additions of np.sum *)

(** The split of [pairwise_sum] leaves two shorter parts, neither empty. *)
Lemma pairwise_split n :
  (128 < n)%nat -> (0 < n / 2 - (n / 2) mod 8 < n)%nat.
Proof.
  intros H.
  pose proof (Nat.mod_upper_bound (n / 2) 8 ltac:(lia)).
  pose proof (Nat.div_mod_eq n 2).
  pose proof (Nat.mod_upper_bound n 2 ltac:(lia)).
  lia.
Qed.

(** The length of the array is fuel enough: with that much or more, the
    sum is the same. *)
Lemma pairwise_sum_fuel : forall f1 f2 (a : list float),
  (length a <= f1)%nat -> (length a <= f2)%nat ->
  np.pairwise_sum f1 a = np.pairwise_sum f2 a.
Proof.
  induction f1 as [|f1 IH]; intros [|f2] a H1 H2; cbn [np.pairwise_sum];
    destruct (length a <? 8)%nat eqn:E8; try reflexivity;
    destruct (length a <=? 128)%nat eqn:E128; try reflexivity;
    apply Nat.ltb_ge in E8; apply Nat.leb_gt in E128; try lia.
  pose proof (pairwise_split (length a) E128) as Hs.
  f_equal; apply IH; rewrite ?length_take, ?length_drop; lia.
Qed.

(** The halves of a long array are summed on their own and then added. *)
Lemma np_sum_halves (a : list float) :
  (128 < length a)%nat ->
  let n2 := (length a / 2 - (length a / 2) mod 8)%nat in
  np.sum a
  = (0 + (np.pairwise_sum n2 (firstn n2 a)
          + np.pairwise_sum (length a - n2) (skipn n2 a)))%float.
Proof.
  intros H n2. unfold np.sum.
  pose proof (pairwise_split (length a) H) as Hs. fold n2 in Hs.
  destruct (length a) as [|f] eqn:L; [lia|].
  cbn [np.pairwise_sum]. rewrite L.
  replace (S f <? 8)%nat with false by (symmetry; apply Nat.ltb_ge; lia).
  replace (S f <=? 128)%nat with false by (symmetry; apply Nat.leb_gt; lia).
  fold n2. do 2 f_equal.
  - apply pairwise_sum_fuel; rewrite length_take; lia.
  - apply pairwise_sum_fuel; rewrite length_drop; lia.
Qed.

(** Fewer than 8 values are added in index order. *)
Lemma np_sum_short (a : list float) :
  (length a < 8)%nat ->
  np.sum a = (0 + fold_left PrimFloat.add a 0)%float.
Proof.
  intros H. unfold np.sum. f_equal.
  destruct (length a) as [|f] eqn:L; cbn [np.pairwise_sum]; rewrite L;
    replace (_ <? 8)%nat with true by (symmetry; apply Nat.ltb_lt; lia);
    reflexivity.
Qed.

(** Nine values are not: the first eight are added in pairs.  Beside
    [2 ** 60], whose neighbours are 256 apart, values of 128 are lost
    when added one by one and kept when added to each other first.  The
    same holds of the column of a one-column matrix, and not of the
    columns of a wider one. *)
Example np_sum_of_nine :
  let big := 0x1p+60%float in
  let a := [big; 128; 128; 128; 128; 128; 128; 128; 128]%float in
  np.sum a = (big + 1024)%float
  /\ fold_left PrimFloat.add a 0%float = big
  /\ np.sum_axis0 (np.Matrix 1 (map (fun x => [x]) a)) = [(big + 1024)%float]
  /\ np.sum_axis0 (np.Matrix 2 (map (fun x => [x; x]) a)) = [big; big].
Proof. repeat split; vm_compute; reflexivity. Qed.

(* ===================================================================== *)
(** * The rescale factors *)

Lemma nth_zip_with {A B C} (f : A -> B -> C) : forall (a : list A)
    (b : list B) j da db dc,
  (j < length a)%nat -> (j < length b)%nat ->
  nth j (zip_with f a b) dc = f (nth j a da) (nth j b db).
Proof.
  induction a as [|x a IH]; intros [|y b] [|j] da db dc Ha Hb;
    simpl in *; try lia; [reflexivity|].
  apply IH; lia.
Qed.

Lemma map_nth_seq {A B} (g : A -> B) (d : A) : forall l : list A,
  map g l = map (fun n => g (nth n l d)) (seq 0 (length l)).
Proof.
  induction l as [|x l IH]; [reflexivity|].
  simpl. f_equal. rewrite <- seq_shift, map_map. exact IH.
Qed.

Lemma sigma_ext w n (f g : nat -> float) :
  (forall k, (k < n)%nat -> f k = g k) -> sigma w n f = sigma w n g.
Proof.
  intros H. unfold sigma.
  replace (map g (seq 0 n)) with (map f (seq 0 n)); [reflexivity|].
  apply map_ext_in. intros k Hk. apply in_seq in Hk. apply H. lia.
Qed.

Lemma bc_same_length {A B C} (f : A -> B -> C) (a : list A) (b : list B) :
  length a = length b -> np.bc f a b = zip_with f a b.
Proof. intros E. unfold np.bc. rewrite E, Nat.eqb_refl. reflexivity. Qed.

Lemma broadcast_len_same n : np.broadcast_len n n = Ok n.
Proof. unfold np.broadcast_len. rewrite Nat.eqb_refl. reflexivity. Qed.

(** Adding rows of width [w] onto a row of width [w]: the width stays, and
    column [j] holds the sum of the column, in row order. *)
Lemma fold_rows (w : nat) : forall (rs : list (list float)) (acc : list float),
  Forall (fun r => length r = w) rs -> length acc = w ->
  length (fold_left (zip_with PrimFloat.add) rs acc) = w
  /\ forall j, (j < w)%nat ->
       nth j (fold_left (zip_with PrimFloat.add) rs acc) 0%float
       = fold_left PrimFloat.add (map (fun r => nth j r 0%float) rs)
           (nth j acc 0%float).
Proof.
  induction rs as [|r rs IH]; intros acc Hr Ha; simpl.
  - split; [exact Ha | reflexivity].
  - apply Forall_cons in Hr as [Hr Hrs].
    assert (Hz : length (zip_with PrimFloat.add acc r) = w)
      by (rewrite length_zip_with; lia).
    destruct (IH _ Hrs Hz) as [L N]. split; [exact L|].
    intros j Hj. rewrite (N j Hj). f_equal.
    apply nth_zip_with; lia.
Qed.

(** The values of a one-column matrix, as they lie in memory, are its
    column. *)
Lemma concat_column : forall rs : list (list float),
  Forall (fun r => length r = 1%nat) rs ->
  concat rs = map (fun r => nth 0 r 0%float) rs.
Proof.
  induction rs as [|r rs IH]; intros H; [reflexivity|].
  apply Forall_cons in H as [Hr Hrs]. simpl. rewrite (IH Hrs).
  destruct r as [|x [|y r]]; try discriminate Hr. reflexivity.
Qed.

(** [np.sum(m, axis=0)[j]] is the sum over the rows of [m[i][j]]. *)
Lemma sum_axis0_nth (m : np.matrix) :
  Forall (fun r => length r = np.ncols m) (np.rows m) ->
  length (np.sum_axis0 m) = np.ncols m
  /\ forall j, (j < np.ncols m)%nat ->
       nth j (np.sum_axis0 m) 0%float
       = sigma (np.ncols m) (length (np.rows m)) (fun i => entry m i j).
Proof.
  intros Hr. unfold np.sum_axis0, sigma.
  destruct (Nat.eqb (np.ncols m) 1) eqn:W.
  - apply Nat.eqb_eq in W. rewrite W in *. split; [reflexivity|].
    intros j Hj. assert (j = 0%nat) as -> by lia. simpl.
    rewrite (concat_column _ Hr). unfold entry.
    rewrite (map_nth_seq (fun r => nth 0 r 0%float) [] (np.rows m)).
    reflexivity.
  - destruct (fold_rows (np.ncols m) (np.rows m)
                (repeat 0%float (np.ncols m)) Hr (repeat_length _ _))
      as [L N].
    split; [exact L|]. intros j Hj. rewrite (N j Hj).
    unfold entry. rewrite nth_repeat.
    rewrite (map_nth_seq (fun r => nth j r 0%float) [] (np.rows m)).
    reflexivity.
Qed.

(** A finite number divided by +infinity is a zero. *)
Lemma div_infinity_is_zero (x : float) :
  is_finite x = true -> is_zero (x / np.inf) = true.
Proof.
  unfold is_finite, is_zero, is_nan, is_infinity, np.inf. intros F.
  rewrite FloatAxioms.eqb_spec, FloatAxioms.div_spec.
  rewrite !FloatAxioms.eqb_spec, FloatAxioms.abs_spec in F.
  change (Prim2SF infinity) with (S754_infinity false) in *.
  change (Prim2SF 0) with (S754_zero false).
  destruct (Prim2SF x) as [[|]|[|]| |[|] m e]; cbv in F |- *;
    first [reflexivity | discriminate F].
Qed.

(** The rows of [exp_spec[:, None] * simul_peaks / simul_spec[:, None]]. *)
Lemma quotient_rows (w : nat) : forall (rs : list (list float))
    (obs calc : list float),
  Forall (fun r => length r = w) rs ->
  length obs = length rs -> length calc = length rs ->
  let q := zip_with (fun row x => map (fun c => c / x)%float row)
             (zip_with (fun x row => map (PrimFloat.mul x) row) obs rs)
             calc in
  length q = length rs
  /\ Forall (fun r => length r = w) q
  /\ forall i j, (i < length rs)%nat -> (j < w)%nat ->
       nth j (nth i q []) 0%float
       = (nth i obs 0 * nth j (nth i rs []) 0 / nth i calc 0)%float.
Proof.
  induction rs as [|r rs IH]; intros [|o obs] [|x calc] Hr Ho Hc;
    simpl in *; try discriminate.
  - repeat split; [constructor | intros; lia].
  - apply Forall_cons in Hr as [Hr Hrs].
    destruct (IH obs calc Hrs ltac:(lia) ltac:(lia)) as (L & F & N).
    repeat split.
    + simpl. f_equal. exact L.
    + constructor; [|exact F]. rewrite !length_map. exact Hr.
    + intros [|i] j Hi Hj; simpl.
      * rewrite map_map.
        rewrite (nth_indep _ 0%float ((o * 0) / x)%float)
          by (rewrite length_map; lia).
        rewrite (map_nth (fun c => (o * c / x)%float)). reflexivity.
      * apply N; lia.
Qed.

(** What [_leBail_rescale_I] returns on a contribution matrix with one
    row per axis point. *)
Lemma leBail_rescale_I_value c calc obs :
  well_shaped c calc obs ->
  _leBail_rescale_I c calc obs
  = Ok (map (rescale_factor c calc obs) (seq 0 (np.ncols c))).
Proof.
  intros (Hr & Hc & Ho).
  destruct c as [w rs]; simpl in *.
  destruct (quotient_rows w rs obs calc Hr Ho Hc) as (Lq & Fq & Nq).
  unfold _leBail_rescale_I, np.col_op_l, np.col_op_r; simpl.
  rewrite Ho, broadcast_len_same; simpl.
  rewrite (bc_same_length _ obs rs Ho).
  assert (Lt : length (zip_with (fun x row => map (PrimFloat.mul x) row)
                         obs rs) = length calc)
    by (rewrite length_zip_with; lia).
  rewrite Lt, broadcast_len_same; simpl.
  rewrite (bc_same_length _ _ calc Lt).
  set (q := zip_with _ (zip_with _ obs rs) calc) in *.
  destruct (sum_axis0_nth (np.Matrix w q) Fq) as [Ls Ns].
  destruct (sum_axis0_nth (np.Matrix w rs) Hr) as [Lp Np].
  cbn [np.ncols np.rows] in *.
  unfold np.broadcast2, np.where_.
  rewrite length_map, Ls, Lp, broadcast_len_same; simpl.
  rewrite bc_same_length by (rewrite length_map; lia).
  f_equal.
  apply (nth_ext _ _ 0%float 0%float).
  - rewrite length_zip_with, length_map, length_map, length_seq; lia.
  - intros j Hj.
    rewrite length_zip_with, length_map in Hj.
    assert (Hw : (j < w)%nat) by lia.
    rewrite (nth_zip_with _ _ _ _ 0%float 0%float)
      by (rewrite ?length_map; lia).
    rewrite (nth_indep (map _ (seq 0 w)) 0%float
               (rescale_factor (np.Matrix w rs) calc obs 0))
      by (rewrite length_map, length_seq; lia).
    rewrite (map_nth (rescale_factor (np.Matrix w rs) calc obs)).
    rewrite seq_nth by lia. cbn [Nat.add].
    rewrite (nth_indep (map _ _) 0%float
               (if PrimFloat.ltb 0 0 then 0%float else np.inf))
      by (rewrite length_map; lia).
    rewrite (map_nth (fun x => if PrimFloat.ltb 0 x then x else np.inf)).
    rewrite (Ns j Hw), (Np j Hw), Lq.
    unfold rescale_factor, guarded_sum; cbn [np.ncols np.rows]. f_equal.
    apply sigma_ext. intros k Hk. unfold entry, at_; cbn [np.rows].
    apply Nq; assumption.
Qed.

(** C4 (amended): on a contribution matrix with one row per axis point
    and a calculated spectrum that is zero nowhere, [_leBail_rescale_I]
    raises nothing and returns, for every peak [j],
    [(sum_i obs[i] * c[i][j] / calc[i]) / D], the sums added as numpy adds
    them; the numerator is the one the specification words, no term of
    which is left out on such a spectrum.  The divisor [D] is the column
    sum [sum_i c[i][j]] when that sum is positive and +infinity otherwise:
    it is positive in every case, so the last division never divides by
    zero, and a factor whose column sum is not positive is a zero whenever
    its numerator is finite. *)
Theorem leBail_rescale_I_factors c calc obs :
  well_shaped c calc obs ->
  nowhere_zero calc ->
  _leBail_rescale_I c calc obs
    = Ok (map (rescale_factor c calc obs) (seq 0 (np.ncols c)))
  /\ (forall j, rescale_factor c calc obs j
                = (claimed_numerator c calc obs j / guarded_sum c j)%float)
  /\ (forall j, PrimFloat.ltb 0 (guarded_sum c j) = true)
  /\ forall j,
       PrimFloat.ltb 0
         (sigma (np.ncols c) (length (np.rows c)) (fun i => entry c i j))
         = false ->
       is_finite (sigma (np.ncols c) (length (np.rows c))
                    (fun i => at_ obs i * entry c i j / at_ calc i)%float)
         = true ->
       is_zero (rescale_factor c calc obs j) = true.
Proof.
  intros Hs Hz. split; [exact (leBail_rescale_I_value c calc obs Hs)|].
  destruct Hs as (_ & Hc & _).
  split; [|split].
  - intros j. unfold rescale_factor, claimed_numerator. f_equal.
    apply sigma_ext. intros k Hk. unfold at_.
    destruct (lookup_lt_is_Some_2 calc k) as [x Hx]; [lia|].
    rewrite (nth_lookup_Some _ _ _ _ Hx).
    unfold nowhere_zero in Hz. rewrite Forall_lookup in Hz.
    rewrite (Hz k x Hx). reflexivity.
  - intros j. unfold guarded_sum.
    destruct (PrimFloat.ltb 0 (sigma _ _ _)) eqn:E; [exact E | reflexivity].
  - intros j Hd Hn. unfold rescale_factor, guarded_sum. rewrite Hd.
    apply div_infinity_is_zero. exact Hn.
Qed.

(** Outside the amended claim: where the calculated spectrum has a zero,
    the term of the numerator is the quotient by that zero.  On a peak set
    fresh from [powder_peaks], whose simulation is zero everywhere, it is
    [0 / 0] and the factor is NaN. *)
Example rescale_zero_spectrum :
  _leBail_rescale_I (np.Matrix 1 [[0]; [0]]%float) [0; 0]%float [1; 4]%float
  = Ok [nan].
Proof. vm_compute. reflexivity. Qed.

Lemma leBail_rescale_I_factors_witness :
  let c := np.Matrix 2 [[1; 0]; [3; 0]]%float in
  let calc := [2; 4]%float in
  let obs := [1; 2]%float in
  _leBail_rescale_I c calc obs
    = Ok (map (rescale_factor c calc obs) (seq 0 (np.ncols c)))
  /\ (forall j, rescale_factor c calc obs j
                = (claimed_numerator c calc obs j / guarded_sum c j)%float)
  /\ (forall j, PrimFloat.ltb 0 (guarded_sum c j) = true)
  /\ forall j,
       PrimFloat.ltb 0
         (sigma (np.ncols c) (length (np.rows c)) (fun i => entry c i j))
         = false ->
       is_finite (sigma (np.ncols c) (length (np.rows c))
                    (fun i => at_ obs i * entry c i j / at_ calc i)%float)
         = true ->
       is_zero (rescale_factor c calc obs j) = true.
Proof.
  intros c calc obs.
  apply (leBail_rescale_I_factors c calc obs).
  - repeat split; repeat constructor.
  - repeat constructor.
Defined.

(** C4 (as stated) fails on a column whose sum is negative: the claim
    guards a sum equal to zero only and divides by this one, where the
    code replaces every sum that is not positive by +infinity.  Here the
    calculated spectrum is not zero, the claimed factor is
    [(1 * -1 / 2) / -1 = 0.5] and the code returns [-0.5 / inf = -0]. *)
Lemma rescale_guard_counterexample :
  let c := np.Matrix 1 [[-1]]%float in
  let calc := [2]%float in
  let obs := [1]%float in
  well_shaped c calc obs
  /\ nowhere_zero calc
  /\ map (claimed_factor c calc obs) (seq 0 (np.ncols c)) = [0.5%float]
  /\ _leBail_rescale_I c calc obs = Ok [(-0)%float]
  /\ _leBail_rescale_I c calc obs
     <> Ok (map (claimed_factor c calc obs) (seq 0 (np.ncols c))).
Proof.
  intros c calc obs.
  split; [repeat split; repeat constructor|].
  split; [repeat constructor|].
  split; [vm_compute; reflexivity|].
  split; [vm_compute; reflexivity|].
  intros H.
  apply (f_equal (fun r => match r with
                           | Ok [x] => PrimFloat.eqb x 0.5
                           | _ => true
                           end)) in H.
  vm_compute in H. discriminate H.
Qed.

(* ===================================================================== *)
(** * The first simulation of the refiner *)

Lemma memo_copies_prefix (h h' : list pyobj) memo :
  h `prefix_of` h' -> memo_copies h memo -> memo_copies h' memo.
Proof.
  intros P M. unfold memo_copies in *. eapply Forall_impl; [exact M|].
  intros [a b] (o & Ha & Hb). exists o.
  split; eapply prefix_lookup_Some; eassumption.
Qed.

Lemma deepcopy_field_copies memo l (h h' : list pyobj) memo' l' :
  memo_copies h memo ->
  deepcopy_field memo l h = (h', Ok (memo', l')) ->
  h `prefix_of` h' /\ memo_copies h' memo'
  /\ exists o, h !! l = Some o /\ h' !! l' = Some o.
Proof.
  intros M. unfold deepcopy_field.
  destruct (list_find _ memo) as [[k [a b]]|] eqn:F.
  - intros E. inversion E; subst. split; [reflexivity|]. split; [exact M|].
    apply list_find_Some in F as (Hk & Ha & _). simpl in Ha.
    apply Is_true_true, Nat.eqb_eq in Ha. subst a.
    unfold memo_copies in M. rewrite Forall_lookup in M.
    apply (M _ _ Hk).
  - intros E. unfold bind, read, alloc, ret in E.
    destruct (h !! l) as [o|] eqn:L; [|discriminate E].
    inversion E; subst.
    assert (P : h `prefix_of` (h ++ [o])) by (apply prefix_app_r; reflexivity).
    split; [exact P|].
    assert (N : (h ++ [o]) !! length h = Some o).
    { rewrite lookup_app_r by lia. rewrite Nat.sub_diag. reflexivity. }
    split.
    + constructor; [|apply (memo_copies_prefix _ _ _ P M)].
      exists o. simpl. split; [|exact N].
      eapply prefix_lookup_Some; eassumption.
    + exists o. split; [reflexivity | exact N].
Qed.

(** The copy's angles and intensities are the caller's. *)
Lemma deepcopy_copies x (h h' : list pyobj) x' :
  (intensity x < length h)%nat ->
  deepcopy x h = (h', Ok x') ->
  h' !! theta2 x' = h !! theta2 x /\ h' !! intensity x' = h !! intensity x.
Proof.
  unfold deepcopy. intros V E.
  apply bind_inv in E as [(h1 & [m1 t] & E1 & E) | (e & _ & D)];
    [|discriminate D].
  apply deepcopy_field_copies in E1 as (P1 & M1 & o1 & A1 & B1);
    [|constructor].
  apply bind_inv in E as [(h2 & [m2 g] & E2 & E) | (e & _ & D)];
    [|discriminate D].
  apply deepcopy_field_copies in E2 as (P2 & M2 & _); [|exact M1].
  apply bind_inv in E as [(h3 & [m3 u] & E3 & E) | (e & _ & D)];
    [|discriminate D].
  apply deepcopy_field_copies in E3 as (P3 & M3 & _); [|exact M2].
  apply bind_inv in E as [(h4 & [m4 d] & E4 & E) | (e & _ & D)];
    [|discriminate D].
  apply deepcopy_field_copies in E4 as (P4 & M4 & _); [|exact M3].
  apply bind_inv in E as [(h5 & [m5 i5] & E5 & E) | (e & _ & D)];
    [|discriminate D].
  apply deepcopy_field_copies in E5 as (P5 & M5 & o5 & A5 & B5); [|exact M4].
  inversion E; subst. simpl.
  assert (P14 : h1 `prefix_of` h4)
    by (etransitivity; [exact P2 | etransitivity; eassumption]).
  assert (P04 : h `prefix_of` h4) by (etransitivity; eassumption).
  split.
  - rewrite A1. eapply prefix_lookup_Some; [exact B1|].
    etransitivity; [exact P14 | exact P5].
  - apply lookup_lt_is_Some_2 in V as [o L].
    assert (L4 : h4 !! intensity x = Some o)
      by (eapply prefix_lookup_Some; eassumption).
    congruence.
Qed.

(** The simulator sees of the store only the angles and the intensities
    of the record it is given. *)
Lemma xrd_spec_simul_reads np_exp x x' th2_axis peak_func peak_f_args
    baseline (h h' : list pyobj) :
  h' !! theta2 x' = h !! theta2 x ->
  h' !! intensity x' = h !! intensity x ->
  snd (xrd_spec_simul np_exp x' th2_axis peak_func peak_f_args baseline h')
  = snd (xrd_spec_simul np_exp x th2_axis peak_func peak_f_args baseline h).
Proof.
  intros T I.
  unfold xrd_spec_simul, read_floats, read, bind, ret, raise, lift, len_opt.
  rewrite T.
  destruct (h !! theta2 x) as [[t|t|t]|]; simpl; try reflexivity.
  rewrite I.
  destruct (h !! intensity x) as [[a|a|a]|]; simpl; try reflexivity.
  destruct peak_func as [f|]; destruct peak_f_args as [l|]; simpl;
    repeat first
      [ reflexivity
      | match goal with
        | |- context [if ?c then _ else _] => destruct c; simpl
        | |- context [call_peak_func ?f ?a ?b ?c] =>
            destruct (call_peak_func f a b c); simpl
        | |- context [np.row_op ?f ?a ?b] =>
            destruct (np.row_op f a b); simpl
        end ].
Qed.

(** C1 (what the code does instead): the starting heights
    [max(exp_spec.intensity) / 4] only fill the local array [peaks_int];
    the copy of the peak set still holds the caller's intensities when the
    first simulation runs, so the first simulated spectrum, its
    contribution matrix and [rwp0] are those of the caller's intensities. *)
Theorem leBail_first_simulation_from_caller np_exp xpeaks exp_spec
    peak_func peak_f_args baseline (h h1 : list pyobj) x' st :
  (intensity xpeaks < length h)%nat ->
  leBail_setup np_exp xpeaks exp_spec peak_func peak_f_args baseline h
    = (h1, Ok (x', st)) ->
  snd (xrd_spec_simul np_exp xpeaks (sd_theta2 exp_spec) peak_func
         peak_f_args baseline h)
    = Ok (simul_spec st, simul_peaks st)
  /\ _Rwp_eval (sd_intensity (simul_spec st)) (sd_intensity exp_spec)
     = Ok (rwp0 st)
  /\ h1 !! intensity x' = h !! intensity xpeaks
  /\ exists top cur,
       np.amax (sd_intensity exp_spec) = Ok top
       /\ h !! intensity xpeaks = Some (FloatArray cur)
       /\ peaks_int st = map (fun v => v * 0 + top / 4)%float cur.
Proof.
  intros V E. unfold leBail_setup in E.
  apply bind_inv in E as [(hc & xc & C & E) | (e & _ & D)]; [|discriminate D].
  destruct (deepcopy_copies _ _ _ _ V C) as [T I].
  apply bind_inv in E as [(h2 & cur & R & E) | (e & _ & D)]; [|discriminate D].
  pose proof (read_only_eq _ _ _ _ (read_only_read_floats _) R) as ->.
  apply bind_inv in E as [(h3 & top & A & E) | (e & _ & D)]; [|discriminate D].
  unfold lift in A. inversion A; subst h3.
  apply bind_inv in E as [(h4 & [sp pk] & S & E) | (e & _ & D)];
    [|discriminate D].
  pose proof (read_only_eq _ _ _ _ (read_only_xrd_spec_simul _ _ _ _ _ _) S)
    as ->.
  apply bind_inv in E as [(h5 & r0 & W & E) | (e & _ & D)]; [|discriminate D].
  unfold lift in W. inversion W; subst h5.
  inversion E; subst. simpl.
  split.
  { rewrite <- (xrd_spec_simul_reads np_exp xpeaks x' _ _ _ _ h h1 T I).
    rewrite S. reflexivity. }
  split; [assumption|]. split; [exact I|].
  exists top, cur. split; [assumption|]. split; [|reflexivity].
  rewrite <- I. unfold read_floats, bind, read in R.
  destruct (h1 !! intensity x') as [[a|a|a]|]; inversion R; reflexivity.
Qed.

Lemma leBail_first_simulation_from_caller_witness :
  snd (xrd_spec_simul no_exp sample_peaks (sd_theta2 sample_exp)
         (Some lorentz) (Some []) 0%float (sample_store [2; 7]%float))
    = Ok (simul_spec sample_st0, simul_peaks sample_st0)
  /\ _Rwp_eval (sd_intensity (simul_spec sample_st0))
       (sd_intensity sample_exp) = Ok (rwp0 sample_st0)
  /\ sample_h0 !! intensity sample_copy
     = sample_store [2; 7]%float !! intensity sample_peaks
  /\ exists top cur,
       np.amax (sd_intensity sample_exp) = Ok top
       /\ sample_store [2; 7]%float !! intensity sample_peaks
          = Some (FloatArray cur)
       /\ peaks_int sample_st0 = map (fun v => v * 0 + top / 4)%float cur.
Proof.
  apply (leBail_first_simulation_from_caller no_exp sample_peaks sample_exp
           (Some lorentz) (Some []) 0%float (sample_store [2; 7]%float)
           sample_h0 sample_copy sample_st0).
  - vm_compute. lia.
  - vm_compute. reflexivity.
Defined.

(** The failing runs of C1.  With caller's intensities 2 and 7 the
    starting heights are 1 and 1, but the first simulation is not the one a
    peak set of intensities 1 and 1 gives; with the zero intensities
    [powder_peaks] produces, every value the refiner returns is NaN. *)
Lemma leBail_starting_heights_unused :
  peaks_int sample_st0 = [1; 1]%float
  /\ (exists h' x st,
        leBail_setup no_exp sample_peaks sample_exp (Some lorentz) (Some [])
          0%float (sample_store [1; 1]%float) = (h', Ok (x, st))
        /\ sd_intensity (simul_spec st)
           <> sd_intensity (simul_spec sample_st0))
  /\ exists h' x s m,
       xrd_leBail_Ifit no_exp sample_peaks sample_exp (Some lorentz)
         (Some []) 0%float default_rwp_tol 100
         (sample_store [0; 0]%float) = (h', Ok (x, s, m, nan))
       /\ h' !! intensity x = Some (FloatArray [nan; nan]).
Proof.
  split; [vm_compute; reflexivity|].
  split.
  - do 3 eexists. split; [vm_compute; reflexivity|].
    intros H.
    apply (f_equal (fun l => PrimFloat.eqb (nth 2 l 0%float) 1)) in H.
    vm_compute in H. discriminate H.
  - do 4 eexists. split; vm_compute; reflexivity.
Qed.

(* ===================================================================== *)
(** * The order of float64 *)

Section FloatOrder.

Local Open Scope float_scope.

(** On the specification of binary64, comparison is antisymmetric and
    only equates a number with itself or a zero with a zero. *)
Lemma SFcompare_antisym x y c :
  SFcompare x y = Some c -> SFcompare y x = Some (CompOpp c).
Proof.
  destruct x as [[|]|[|]| |[|] m e], y as [[|]|[|]| |[|] m' e']; simpl;
    intros H; inversion H; subst; try reflexivity;
    pose proof (Pos.compare_cont_antisym m m' Eq) as P; simpl in P;
    rewrite (Z.compare_antisym e e'), <- P;
    destruct (e ?= e')%Z; simpl; rewrite ?CompOpp_involutive; reflexivity.
Qed.

Lemma SFcompare_Eq x y :
  SFcompare x y = Some Eq ->
  x = y \/ exists s s', x = S754_zero s /\ y = S754_zero s'.
Proof.
  destruct x as [[|]|[|]| |[|] m e], y as [[|]|[|]| |[|] m' e']; simpl;
    intros H; inversion H; subst; eauto;
    destruct (e ?= e')%Z eqn:E; try discriminate;
    apply Z.compare_eq in E; subst e'; left; f_equal;
    [ apply Pos.compare_eq; destruct (Pos.compare_cont Eq m m') eqn:C;
      try discriminate; exact C
    | apply Pos.compare_eq; exact H1 ].
Qed.

Lemma SFcompare_total x y :
  x <> S754_nan -> y <> S754_nan -> exists c, SFcompare x y = Some c.
Proof.
  destruct x, y; simpl; intros Hx Hy; try congruence; eauto.
Qed.

Lemma not_nan_spec a : is_nan a = false -> Prim2SF a <> S754_nan.
Proof.
  unfold is_nan. rewrite FloatAxioms.eqb_spec. intros H E.
  rewrite E in H. discriminate H.
Qed.

(** Among numbers, [b < a] fails only when [a <= b]. *)
Lemma float_le_total a b :
  is_nan a = false -> is_nan b = false ->
  (b <? a) = false -> (a <=? b) = true.
Proof.
  intros Ha Hb. rewrite FloatAxioms.ltb_spec, FloatAxioms.leb_spec.
  unfold SFltb, SFleb.
  destruct (SFcompare_total _ _ (not_nan_spec _ Hb) (not_nan_spec _ Ha))
    as [c C].
  rewrite C, (SFcompare_antisym _ _ _ C).
  destruct c; simpl; congruence.
Qed.

Lemma float_lt_le a b : (a <? b) = true -> (a <=? b) = true.
Proof.
  rewrite FloatAxioms.ltb_spec, FloatAxioms.leb_spec. unfold SFltb, SFleb.
  destruct (SFcompare _ _) as [[| |]|]; congruence.
Qed.

(** [a <= b] and [b != a] give [a < b]. *)
Lemma float_le_neq_lt a b :
  (a <=? b) = true -> (b =? a) = false -> (a <? b) = true.
Proof.
  rewrite FloatAxioms.ltb_spec, FloatAxioms.leb_spec, FloatAxioms.eqb_spec.
  unfold SFltb, SFleb, SFeqb.
  destruct (SFcompare (Prim2SF a) (Prim2SF b)) as [c|] eqn:C;
    [|discriminate].
  rewrite (SFcompare_antisym _ _ _ C). destruct c; simpl; congruence.
Qed.

(** [<] does not tell two equal numbers apart. *)
Lemma float_eq_lt x p y :
  (x =? p) = true -> (x <? y) = true -> (p <? y) = true.
Proof.
  rewrite !FloatAxioms.ltb_spec, FloatAxioms.eqb_spec.
  unfold SFltb, SFeqb.
  destruct (SFcompare (Prim2SF x) (Prim2SF p)) as [[| |]|] eqn:C;
    try discriminate.
  intros _.
  destruct (SFcompare_Eq _ _ C) as [-> | (s & s' & -> & ->)];
    [trivial|].
  destruct (Prim2SF y) as [[|]|[|]| |[|] m e]; simpl; trivial.
Qed.

(** The comparison of two finite numbers of one sign is the order of
    their (exponent, mantissa) pairs. *)
Lemma lex_Lt e m e' m' :
  match (e ?= e')%Z with
  | Eq => Pos.compare_cont Eq m m'
  | Lt => Lt
  | Gt => Gt
  end = Lt
  <-> (e < e')%Z \/ (e = e' /\ (m < m')%positive).
Proof.
  change (Pos.compare_cont Eq m m') with (m ?= m')%positive.
  destruct (Z.compare_spec e e'), (Pos.compare_spec m m');
    split; intros L; try discriminate; try reflexivity; lia.
Qed.

Lemma lex_Gt e m e' m' :
  match (e ?= e')%Z with
  | Eq => CompOpp (Pos.compare_cont Eq m m')
  | Lt => Gt
  | Gt => Lt
  end = Lt
  <-> (e' < e)%Z \/ (e = e' /\ (m' < m)%positive).
Proof.
  change (Pos.compare_cont Eq m m') with (m ?= m')%positive.
  destruct (Z.compare_spec e e'), (Pos.compare_spec m m'); simpl;
    split; intros L; try discriminate; try reflexivity; lia.
Qed.

Lemma SFcompare_Lt_trans x y z :
  SFcompare x y = Some Lt -> SFcompare y z = Some Lt ->
  SFcompare x z = Some Lt.
Proof.
  destruct x as [[|]|[|]| |[|] m e], y as [[|]|[|]| |[|] m' e'],
    z as [[|]|[|]| |[|] m'' e'']; simpl;
    intros H1 H2; try discriminate; try reflexivity;
    injection H1 as H1; injection H2 as H2; f_equal;
    first [ apply lex_Lt; apply lex_Lt in H1; apply lex_Lt in H2; lia
          | apply lex_Gt; apply lex_Gt in H1; apply lex_Gt in H2; lia ].
Qed.

(** [<] is transitive. *)
Lemma float_lt_trans a b c :
  (a <? b) = true -> (b <? c) = true -> (a <? c) = true.
Proof.
  rewrite !FloatAxioms.ltb_spec. unfold SFltb.
  destruct (SFcompare (Prim2SF a) (Prim2SF b)) as [[| |]|] eqn:C1;
    try discriminate.
  destruct (SFcompare (Prim2SF b) (Prim2SF c)) as [[| |]|] eqn:C2;
    try discriminate.
  rewrite (SFcompare_Lt_trans _ _ _ C1 C2). reflexivity.
Qed.

End FloatOrder.

(* ===================================================================== *)
(** * np.unique on numbers *)

(** On numbers the order numpy sorts by is [<]. *)
Lemma np_lt_number a b : number b -> np_lt a b = PrimFloat.ltb a b.
Proof.
  unfold np_lt, number. intros ->. simpl. apply orb_false_r.
Qed.

Lemma sort_insert_Forall (P : float * nat -> Prop) x l :
  P x -> Forall P l -> Forall P (sort_insert x l).
Proof.
  intros Hx. induction 1 as [|y l Hy Hl IH]; simpl.
  - repeat constructor. exact Hx.
  - destruct (np_lt (fst y) (fst x)); repeat constructor; assumption.
Qed.

Lemma length_sort_insert x l : length (sort_insert x l) = S (length l).
Proof.
  induction l as [|y l IH]; simpl; [reflexivity|].
  destruct (np_lt (fst y) (fst x)); simpl; [rewrite IH|]; reflexivity.
Qed.

(** Inserting a number keeps a list of numbers in ascending order. *)
Lemma sort_insert_Sorted x l :
  number (fst x) -> Forall (fun p => number (fst p)) l ->
  Sorted (fun p q => float_le (fst p) (fst q)) l ->
  Sorted (fun p q => float_le (fst p) (fst q)) (sort_insert x l).
Proof.
  intros Hx Hl Hs. induction l as [|y l IH]; simpl.
  - repeat constructor.
  - apply Forall_cons in Hl as [Hy Hl].
    apply Sorted_inv in Hs as [Hs Hd].
    rewrite (np_lt_number _ _ Hx).
    destruct (PrimFloat.ltb (fst y) (fst x)) eqn:L.
    + constructor; [apply IH; assumption|].
      destruct l as [|z l]; simpl.
      * constructor. apply float_lt_le. exact L.
      * rewrite (np_lt_number _ _ Hx).
        destruct (PrimFloat.ltb (fst z) (fst x)).
        -- constructor. apply HdRel_inv in Hd. exact Hd.
        -- constructor. apply float_lt_le. exact L.
    + constructor; [constructor; assumption|].
      constructor. apply float_le_total; assumption.
Qed.

Lemma stable_sort_Forall (P : float * nat -> Prop) l :
  Forall P l -> Forall P (stable_sort l).
Proof.
  induction 1 as [|x l Hx Hl IH]; simpl; [constructor|].
  apply sort_insert_Forall; assumption.
Qed.

Lemma length_stable_sort l : length (stable_sort l) = length l.
Proof.
  induction l as [|x l IH]; simpl; [reflexivity|].
  rewrite length_sort_insert, IH. reflexivity.
Qed.

Lemma stable_sort_Sorted l :
  Forall (fun p => number (fst p)) l ->
  Sorted (fun p q => float_le (fst p) (fst q)) (stable_sort l).
Proof.
  induction 1 as [|x l Hx Hl IH]; simpl; [constructor|].
  apply sort_insert_Sorted; [assumption | | assumption].
  apply stable_sort_Forall. assumption.
Qed.

Lemma mask_cons {A} (b : bool) fl (x : A) l :
  mask (b :: fl) (x :: l) = if b then x :: mask fl l else mask fl l.
Proof.
  unfold mask. simpl. rewrite filter_cons. simpl.
  destruct b; simpl.
  - destruct (decide (true = true)); [reflexivity | congruence].
  - destruct (decide (false = true)); [discriminate | reflexivity].
Qed.

Lemma length_changes prev l : length (changes prev l) = length l.
Proof.
  revert prev. induction l as [|x l IH]; intros prev; simpl;
    [|rewrite IH]; reflexivity.
Qed.

Lemma length_unique_flag l : length (unique_flag l) = length l.
Proof. destruct l; simpl; [|rewrite length_changes]; reflexivity. Qed.

(** Two masked arrays of one length keep as many elements. *)
Lemma length_mask {A B} fl : forall (a : list A) (b : list B),
  length a = length b -> length (mask fl a) = length (mask fl b).
Proof.
  induction fl as [|f fl IH]; intros [|x a] [|y b] E;
    try discriminate E; try reflexivity.
  rewrite !mask_cons. injection E as E.
  destruct f; simpl; [f_equal|]; apply IH; exact E.
Qed.

(** Dropping from an ascending list of numbers every element equal to its
    predecessor leaves a strictly ascending list, above the number the
    list follows. *)
Lemma mask_changes_ascending l : forall prev,
  number prev -> Forall number l -> Sorted float_le (prev :: l) ->
  Sorted float_lt (mask (changes prev l) l)
  /\ HdRel float_lt prev (mask (changes prev l) l).
Proof.
  induction l as [|x l IH]; intros prev Hp Hl Hs.
  - split; constructor.
  - apply Forall_cons in Hl as [Hx Hl].
    apply Sorted_inv in Hs as [Hs Hd]. apply HdRel_inv in Hd.
    destruct (IH x Hx Hl Hs) as [S1 H1].
    simpl. rewrite mask_cons.
    destruct (PrimFloat.eqb x prev) eqn:E; simpl.
    + split; [exact S1|].
      destruct (mask (changes x l) l) as [|y out]; constructor.
      apply HdRel_inv in H1. eapply float_eq_lt; eassumption.
    + assert (L : float_lt prev x) by (apply float_le_neq_lt; assumption).
      split; constructor; assumption.
Qed.

(** The values [np.unique] returns for an array of numbers are strictly
    ascending, each below all that follow. *)
Lemma np_unique_ascending ar :
  Forall number ar ->
  StronglySorted float_lt (fst (fst (np_unique ar))).
Proof.
  intros Hn. unfold np_unique; simpl.
  set (sorted := stable_sort (zip ar (seq 0 (length ar)))).
  assert (Hz : Forall (fun p => number (fst p)) (zip ar (seq 0 (length ar)))).
  { rewrite Forall_forall in Hn. apply Forall_forall. intros [a k] Hin.
    apply elem_of_zip_l in Hin. simpl. apply Hn. exact Hin. }
  assert (Ns : Forall number (map fst sorted)).
  { apply Forall_fmap. apply (stable_sort_Forall _ _ Hz). }
  assert (Ss : Sorted float_le (map fst sorted)).
  { pose proof (stable_sort_Sorted _ Hz) as S. fold sorted in S.
    clear -S. induction S as [|p l Sl IH Hd]; simpl; constructor; [exact IH|].
    destruct Hd; simpl; constructor. assumption. }
  apply Sorted_StronglySorted.
  { intros a b c. apply float_lt_trans. }
  destruct (map fst sorted) as [|x aux]; simpl; [constructor|].
  rewrite mask_cons.
  apply Forall_cons in Ns as [Nx Na].
  destruct (mask_changes_ascending aux x Nx Na Ss) as [S1 H1].
  constructor; assumption.
Qed.

(* ===================================================================== *)
(** * Index arrays *)

Lemma np_where_from (mask : list bool) : forall k i,
  i ∈ map fst (filter (fun p => snd p = true) (zip (seq k (length mask)) mask))
  -> exists j, i = (k + j)%nat /\ mask !! j = Some true.
Proof.
  induction mask as [|b mask IH]; intros k i Hi; simpl in Hi.
  - apply elem_of_nil in Hi. contradiction.
  - rewrite filter_cons in Hi. simpl in Hi.
    destruct (decide (b = true)) as [-> | Hb].
    + simpl in Hi. apply elem_of_cons in Hi as [-> | Hi].
      * exists O. split; [lia | reflexivity].
      * destruct (IH _ _ Hi) as (j & -> & Hj).
        exists (S j). split; [lia | exact Hj].
    + destruct (IH _ _ Hi) as (j & -> & Hj).
      exists (S j). split; [lia | exact Hj].
Qed.

(** [np.where(mask)[0]] holds indices at which the mask is true. *)
Lemma np_where_lookup mask i : i ∈ np_where mask -> mask !! i = Some true.
Proof.
  intros Hi. apply np_where_from in Hi as (j & -> & Hj). exact Hj.
Qed.

Lemma length_np_take {A} (d : A) a idx : length (np_take d a idx) = length idx.
Proof. apply length_map. Qed.

(** [a[np.where(p(a))]] holds elements of [a] that satisfy [p]. *)
Lemma np_take_where {A} (p : A -> bool) (d : A) (a : list A) :
  Forall (fun v => p v = true) (np_take d a (np_where (map p a))).
Proof.
  unfold np_take. apply Forall_fmap, Forall_forall. intros i Hi. simpl.
  apply np_where_lookup in Hi.
  change (map p a) with (p <$> a) in Hi.
  rewrite list_lookup_fmap in Hi.
  destruct (a !! i) as [v|] eqn:L; [|discriminate Hi].
  rewrite (nth_lookup_Some _ _ _ _ L). simpl in Hi. congruence.
Qed.

(** Taking, at indices where a mask as long as [a] is true, elements of
    an array [a] whose elements all satisfy [P]. *)
Lemma np_take_Forall {A} (P : A -> Prop) (d : A) (a : list A) mask :
  length mask = length a -> Forall P a ->
  Forall P (np_take d a (np_where mask)).
Proof.
  intros E Ha. unfold np_take. apply Forall_fmap, Forall_forall.
  intros i Hi. simpl. apply np_where_lookup in Hi.
  apply lookup_lt_Some in Hi. rewrite E in Hi.
  apply lookup_lt_is_Some_2 in Hi as [v L].
  rewrite (nth_lookup_Some _ _ _ _ L).
  rewrite Forall_lookup in Ha. apply (Ha _ _ L).
Qed.

Lemma alloc_lookup o (h h' : list pyobj) l :
  alloc o h = (h', Ok l) -> h `prefix_of` h' /\ h' !! l = Some o.
Proof.
  unfold alloc. intros E. inversion E; subst. split.
  - apply prefix_app_r. reflexivity.
  - rewrite lookup_app_r by lia. rewrite Nat.sub_diag. reflexivity.
Qed.

(* ===================================================================== *)
(** * The peak set of the enumeration *)

Section PeakSet.

Variable Atoms : Type.
Variable Setting : Type.
Variable cart2abc_cell : Atoms -> list (list float).
Variable hall_number : Atoms -> Z.
Variable get_sel_rule_from_hall : Z -> option (hkl -> bool).
Variable get_sel_rule_from_international :
  Z -> Setting -> option (hkl -> bool).
Variable hkl2d2_matgen : list (list float) -> list (list float).
Variable minimum_supcell : float -> list (list float) -> Z * Z * Z.
Variable np_arcsin : float -> float.
Variable np_round : float -> Z -> float.

Let angle := rounded_angle np_arcsin np_round.

(** The reflections [powder_peaks] rounds the angles of lie inside the
    bounds on the inverse distance, and there are as many angles as
    reflections. *)
Lemma selected_grid_angles self latt_abc sel_rule hkl_grid inv_d_grid angles :
  selected_grid hkl2d2_matgen minimum_supcell np_arcsin np_round self
    latt_abc sel_rule = Ok (hkl_grid, inv_d_grid, angles) ->
  length hkl_grid = length angles
  /\ length inv_d_grid = length angles
  /\ angles = map (angle self) inv_d_grid
  /\ Forall (fun d => PrimFloat.ltb d (2 / c_lambdax self)
                      && PrimFloat.ltb 0 d = true) inv_d_grid.
Proof.
  unfold selected_grid.
  destruct (PrimFloat.eqb (c_lambdax self) 0); [discriminate|].
  destruct (minimum_supcell _ _) as [[bh bk] bl].
  set (grid := meshgrid _ _ _).
  set (ds := map (inv_d (hkl2d2_matgen latt_abc)) grid).
  set (inside := fun d => PrimFloat.ltb d (2 / c_lambdax self)
                          && PrimFloat.ltb 0 d).
  set (valid_i := np_where (map inside ds)).
  destruct (np_take (0, 0, 0) grid valid_i) as [|r g] eqn:G; [discriminate|].
  rewrite <- G. intros E. inversion E; subst. clear E.
  rewrite !length_map, !length_np_take.
  split; [reflexivity|]. split; [reflexivity|].
  split; [rewrite map_map; reflexivity|].
  apply np_take_Forall.
  - rewrite length_map, !length_np_take. reflexivity.
  - apply (np_take_where inside).
Qed.

Let peaks :=
  powder_peaks Atoms Setting cart2abc_cell hall_number get_sel_rule_from_hall
    get_sel_rule_from_international hkl2d2_matgen minimum_supcell np_arcsin
    np_round.

(** When rounding gives a number (not NaN) for every reflection inside
    the bounds on the inverse distance, the arrays of every peak set
    [powder_peaks] returns have one length, and each angle of [theta2] is
    below all the angles after it. *)
Theorem powder_peaks_invariant self atoms latt_abc n o (h h' : list pyobj) x :
  (forall d, PrimFloat.ltb d (2 / c_lambdax self) = true ->
             PrimFloat.ltb 0 d = true -> number (angle self d)) ->
  peaks self atoms latt_abc n o h = (h', Ok x) ->
  exists th g u d it,
    h' !! theta2 x = Some (FloatArray th)
    /\ h' !! hkl_groups x = Some (HklGroups g)
    /\ h' !! hkl_unique x = Some (HklArray u)
    /\ h' !! invd x = Some (FloatArray d)
    /\ h' !! intensity x = Some (FloatArray it)
    /\ StronglySorted float_lt th
    /\ length g = length th /\ length u = length th
    /\ length d = length th /\ length it = length th.
Proof.
  intros Hnum E. unfold peaks, powder_peaks in E.
  apply bind_inv in E as [(h0 & [latt sel] & L & E) | (e & _ & D)];
    [|discriminate D].
  unfold lift in L. inversion L; subst h0. clear L.
  apply bind_inv in E as [(h0 & [[grid ds] angles] & G & E) | (e & _ & D)];
    [|discriminate D].
  unfold lift in G. inversion G as [[G0 G']]; subst h0. clear G.
  apply selected_grid_angles in G' as (Lg & Ld & -> & Hin).
  pose proof (np_unique_ascending (map (angle self) ds)) as Asc.
  pose proof (length_mask
    (unique_flag (map fst (stable_sort
       (zip (map (angle self) ds)
            (seq 0 (length (map (angle self) ds)))))))
    (map fst (stable_sort
       (zip (map (angle self) ds)
            (seq 0 (length (map (angle self) ds))))))
    (map snd (stable_sort
       (zip (map (angle self) ds)
            (seq 0 (length (map (angle self) ds))))))) as Lm.
  destruct (np_unique (map (angle self) ds))
    as [[unique index] inverse] eqn:U.
  unfold np_unique in U. inversion U as [[U1 U2 U3]]. clear U.
  rewrite U1, U2 in Lm. simpl in Asc.
  apply bind_inv in E as [(h1 & l1 & A1 & E) | (e & _ & D)]; [|discriminate D].
  apply bind_inv in E as [(h2 & l2 & A2 & E) | (e & _ & D)]; [|discriminate D].
  apply bind_inv in E as [(h3 & l3 & A3 & E) | (e & _ & D)]; [|discriminate D].
  apply bind_inv in E as [(h4 & l4 & A4 & E) | (e & _ & D)]; [|discriminate D].
  apply bind_inv in E as [(h5 & l5 & A5 & E) | (e & _ & D)]; [|discriminate D].
  inversion E; subst h' x. clear E. simpl.
  apply alloc_lookup in A1 as [P1 K1], A2 as [P2 K2], A3 as [P3 K3],
    A4 as [P4 K4], A5 as [P5 K5].
  do 5 eexists.
  split. { eapply prefix_lookup_Some; [exact K1|].
           etransitivity; [exact P2|]. etransitivity; [exact P3|].
           etransitivity; [exact P4 | exact P5]. }
  split. { eapply prefix_lookup_Some; [exact K2|].
           etransitivity; [exact P3|]. etransitivity; [exact P4 | exact P5]. }
  split. { eapply prefix_lookup_Some; [exact K3|].
           etransitivity; [exact P4 | exact P5]. }
  split. { eapply prefix_lookup_Some; [exact K4 | exact P5]. }
  split; [exact K5|].
  split.
  { apply Asc. apply Forall_fmap, Forall_forall. intros d Hd. simpl.
    rewrite Forall_forall in Hin. specialize (Hin d Hd).
    apply andb_true_iff in Hin as [Hlt Hpos]. apply Hnum; assumption. }
  rewrite length_map, length_seq, !length_np_take, repeat_length.
  repeat split; try reflexivity;
    symmetry; apply Lm; rewrite !length_map; reflexivity.
Qed.

End PeakSet.

Lemma powder_peaks_invariant_witness :
  exists th g u d it,
    fst toy_run !! theta2 toy_spectrum = Some (FloatArray th)
    /\ fst toy_run !! hkl_groups toy_spectrum = Some (HklGroups g)
    /\ fst toy_run !! hkl_unique toy_spectrum = Some (HklArray u)
    /\ fst toy_run !! invd toy_spectrum = Some (FloatArray d)
    /\ fst toy_run !! intensity toy_spectrum = Some (FloatArray it)
    /\ StronglySorted float_lt th
    /\ length g = length th /\ length u = length th
    /\ length d = length th /\ length it = length th.
Proof.
  apply (powder_peaks_invariant unit unit
           (fun _ => [[1; 1; 1]; [1; 1; 1]]%float) (fun _ => 0) toy_hall
           toy_international toy_hkl2d2 toy_supcell toy_arcsin toy_round
           toy_calc None (Some [[1; 1; 1]; [1; 1; 1]]%float) 1 tt []
           (fst toy_run) toy_spectrum).
  - intros d _ _. unfold number, rounded_angle, toy_round.
    set (y := (2 * toy_arcsin _ * 180 / np_pi)%float).
    destruct (is_nan y) eqn:E; [reflexivity | exact E].
  - vm_compute. reflexivity.
Defined.

(** The peak set of the toy lattice: three angles, and the first
    reflection met on the grid for each. *)
Example toy_run_peaks :
  exists a b c,
    fst toy_run !! theta2 toy_spectrum = Some (FloatArray [a; b; c])
    /\ float_lt a b /\ float_lt b c
    /\ fst toy_run !! hkl_unique toy_spectrum
       = Some (HklArray [(0, -1, 0); (-1, -1, 0); (-1, -1, -1)]).
Proof. do 3 eexists. repeat split; vm_compute; reflexivity. Qed.

(* ===================================================================== *)
(** * The refiner called with its default arguments *)

(** Without a peak function and with an empty list of arguments the
    simulator calls the default Gaussian without its width. *)
Lemma xrd_spec_simul_gauss_without_width np_exp xpeaks th2_axis baseline
    (h : list pyobj) :
  exists e,
    xrd_spec_simul np_exp xpeaks th2_axis None (Some []) baseline h
    = (h, Raise e)
    /\ (forall t a, h !! theta2 xpeaks = Some (FloatArray t) ->
          h !! intensity xpeaks = Some (FloatArray a) ->
          e = TypeError "missing required positional arguments").
Proof.
  unfold xrd_spec_simul, read_floats, read, bind, ret, raise, lift.
  destruct (h !! theta2 xpeaks) as [[t|t|t]|];
    try (eexists; split; [reflexivity | intros; discriminate]).
  destruct (h !! intensity xpeaks) as [[a|a|a]|];
    try (eexists; split; [reflexivity | intros; discriminate]).
  eexists. split; reflexivity.
Qed.

(** [xrd_leBail_Ifit(xpeaks, exp_spec)] with the defaults of the function,
    [peak_func=None] and [peak_f_args=[]], never returns: the empty list is
    not [None], so no width is supplied, and the call of the default
    Gaussian raises. *)
Theorem leBail_default_arguments_raise np_exp xpeaks exp_spec baseline
    rwp_tol max_iter (h : list pyobj) :
  exists e,
    snd (xrd_leBail_Ifit np_exp xpeaks exp_spec None (Some []) baseline
           rwp_tol max_iter h) = Raise e.
Proof.
  unfold xrd_leBail_Ifit, leBail_setup.
  unfold bind at 1 2.
  destruct (deepcopy xpeaks h) as [h1 [x'|e]]; [|eexists; reflexivity].
  unfold bind at 1.
  destruct (read_floats (intensity x') h1) as [h2 [cur|e]];
    [|eexists; reflexivity].
  unfold bind at 1. unfold lift at 1.
  destruct (np.amax (sd_intensity exp_spec)) as [top|e];
    [|eexists; reflexivity].
  unfold bind at 1.
  destruct (xrd_spec_simul_gauss_without_width np_exp x'
              (sd_theta2 exp_spec) baseline h2) as (e & -> & _).
  eexists. reflexivity.
Qed.

(* ===================================================================== *)
(** * What the refiner returns *)

Section Returned.

Variable np_exp : float -> float.
Variable xpeaks : XraySpectrum.
Variable exp_spec : XraySpectrumData.
Variable peak_func : option PeakFunc.
Variable peak_f_args : option (list float).
Variable baseline rwp_tol : float.

(** The spectrum, the contributions and the Rwp of a state are those of
    the peak set as the store holds it. *)
Definition simulated (st : LeBailState) (h : list pyobj) : Prop :=
  xrd_spec_simul np_exp xpeaks (sd_theta2 exp_spec) peak_func peak_f_args
    baseline h = (h, Ok (simul_spec st, simul_peaks st))
  /\ exists r, rwp st = Some r
       /\ _Rwp_eval (sd_intensity (simul_spec st)) (sd_intensity exp_spec)
          = Ok r.

Lemma leBail_body_simulated n st (h h' : list pyobj) st' :
  leBail_body np_exp xpeaks exp_spec peak_func peak_f_args baseline n st h
    = (h', Ok st') ->
  simulated st' h'.
Proof.
  unfold leBail_body. intros E.
  apply bind_inv in E as [(h1 & scale & _ & E) | (e & _ & D)];
    [|discriminate D].
  apply bind_inv in E as [(h2 & pk & _ & E) | (e & _ & D)];
    [|discriminate D].
  apply bind_inv in E as [(h3 & u & _ & E) | (e & _ & D)];
    [|discriminate D].
  apply bind_inv in E as [(h4 & [sp ct] & S & E) | (e & _ & D)];
    [|discriminate D].
  pose proof (read_only_eq _ _ _ _ (read_only_xrd_spec_simul _ _ _ _ _ _) S)
    as ->.
  apply bind_inv in E as [(h5 & r & R & E) | (e & _ & D)];
    [|discriminate D].
  unfold lift in R. inversion R; subst h5. inversion E; subst.
  split; [exact S|]. exists r. simpl. split; [reflexivity | assumption].
Qed.

Lemma simulated_next st (h : list pyobj) :
  simulated st h -> simulated (leBail_next st) h.
Proof. intros Sim. exact Sim. Qed.

Lemma leBail_loop_simulated todo : forall n st (h h' : list pyobj) final,
  leBail_loop np_exp xpeaks exp_spec peak_func peak_f_args baseline rwp_tol
    todo n st h = (h', Ok final) ->
  (final = st /\ h' = h) \/ simulated final h'.
Proof.
  induction todo as [|todo IH]; intros n st h h' final E; simpl in E.
  - inversion E; subst. left. split; reflexivity.
  - apply bind_inv in E as [(h1 & st' & B & E) | (e & _ & D)];
      [|discriminate D].
    apply leBail_body_simulated in B as Sim. right.
    destruct (leBail_break rwp_tol st').
    + inversion E; subst. exact Sim.
    + apply IH in E as [[-> ->] | Sim']; [|exact Sim'].
      apply simulated_next. exact Sim.
Qed.

End Returned.

(** The values [xrd_leBail_Ifit] returns agree with each other: the
    spectrum and the contribution matrix are the simulation, on the
    experimental axis, of the peak set returned as the store holds it, and
    [rwp] is the Rwp of that spectrum. *)
Theorem leBail_returns_simulation_of_result np_exp xpeaks exp_spec peak_func
    peak_f_args baseline rwp_tol max_iter (h h' : list pyobj) x' s m w :
  xrd_leBail_Ifit np_exp xpeaks exp_spec peak_func peak_f_args baseline
    rwp_tol max_iter h = (h', Ok (x', s, m, w)) ->
  xrd_spec_simul np_exp x' (sd_theta2 exp_spec) peak_func peak_f_args
    baseline h' = (h', Ok (s, m))
  /\ _Rwp_eval (sd_intensity s) (sd_intensity exp_spec) = Ok w.
Proof.
  unfold xrd_leBail_Ifit. intros E.
  apply bind_inv in E as [(h0 & [x0 st0] & S & E) | (e & _ & D)];
    [|discriminate D].
  apply bind_inv in E as [(h1 & final & L & E) | (e & _ & D)];
    [|discriminate D].
  destruct (rwp final) as [r|] eqn:R; [|discriminate E].
  inversion E; subst. clear E.
  apply leBail_loop_simulated in L as [[-> ->] | (Sim & r' & R' & W)].
  - rewrite (leBail_setup_rwp_unbound _ _ _ _ _ _ _ _ _ _ S) in R.
    discriminate R.
  - split; [exact Sim|]. congruence.
Qed.

Lemma leBail_returns_simulation_of_result_witness :
  match xrd_leBail_Ifit no_exp sample_peaks sample_exp (Some lorentz)
          (Some []) 0%float default_rwp_tol 3 (sample_store [2; 7]%float)
  with
  | (h', Ok (x', s, m, w)) =>
      xrd_spec_simul no_exp x' (sd_theta2 sample_exp) (Some lorentz)
        (Some []) 0%float h' = (h', Ok (s, m))
      /\ _Rwp_eval (sd_intensity s) (sd_intensity sample_exp) = Ok w
  | (_, Raise _) => False
  end.
Proof.
  destruct (xrd_leBail_Ifit no_exp sample_peaks sample_exp (Some lorentz)
              (Some []) 0%float default_rwp_tol 3
              (sample_store [2; 7]%float))
    as [h' [[[[x' s] m] w]|e]] eqn:E.
  - apply (leBail_returns_simulation_of_result no_exp sample_peaks
             sample_exp (Some lorentz) (Some []) 0%float default_rwp_tol 3
             (sample_store [2; 7]%float) h' x' s m w E).
  - vm_compute in E. discriminate E.
Defined.

(* ===================================================================== *)
(** * Rwp on data with a zero *)

Section NaN.

Local Open Scope float_scope.

Lemma SFcompare_refl x : x <> S754_nan -> SFcompare x x = Some Eq.
Proof.
  destruct x as [[|]|[|]| |[|] m e]; simpl; intros H; try congruence;
    rewrite Z.compare_refl, Pos.compare_cont_refl; reflexivity.
Qed.

(** [is_nan] tells the NaN of the specification. *)
Lemma is_nan_spec x : is_nan x = true <-> Prim2SF x = S754_nan.
Proof.
  unfold is_nan. rewrite FloatAxioms.eqb_spec. unfold SFeqb. split.
  - intros H. destruct (Prim2SF x) eqn:E; try reflexivity;
      rewrite SFcompare_refl in H by discriminate; discriminate H.
  - intros ->. reflexivity.
Qed.

Lemma is_zero_spec x : is_zero x = true -> exists s, Prim2SF x = S754_zero s.
Proof.
  unfold is_zero. rewrite FloatAxioms.eqb_spec. unfold SFeqb.
  change (Prim2SF zero) with (S754_zero false).
  destruct (SFcompare (Prim2SF x) (S754_zero false)) as [[| |]|] eqn:C;
    try discriminate.
  intros _.
  destruct (SFcompare_Eq _ _ C) as [E | (s & s' & E & _)]; rewrite E; eauto.
Qed.

Lemma add_nan_l a b : is_nan a = true -> is_nan (a + b) = true.
Proof.
  rewrite !is_nan_spec, FloatAxioms.add_spec. intros ->. reflexivity.
Qed.

Lemma add_nan_r a b : is_nan b = true -> is_nan (a + b) = true.
Proof.
  rewrite !is_nan_spec, FloatAxioms.add_spec. intros ->.
  destruct (Prim2SF a); reflexivity.
Qed.

Lemma div_nan_r a b : is_nan b = true -> is_nan (a / b) = true.
Proof.
  rewrite !is_nan_spec, FloatAxioms.div_spec. intros ->.
  destruct (Prim2SF a); reflexivity.
Qed.

Lemma sqrt_nan a : is_nan a = true -> is_nan (PrimFloat.sqrt a) = true.
Proof.
  rewrite !is_nan_spec, FloatAxioms.sqrt_spec. intros ->. reflexivity.
Qed.

(** The weighted square [(1 / e) * e ** 2] of a zero is NaN: the weight is
    an infinity and the square a zero. *)
Lemma weight_of_zero e :
  is_zero e = true -> is_nan ((1 / e) * np.square e) = true.
Proof.
  intros Z. apply is_zero_spec in Z as [s Z].
  apply is_nan_spec. unfold np.square.
  rewrite FloatAxioms.mul_spec, FloatAxioms.div_spec, FloatAxioms.mul_spec.
  rewrite Z. destruct s; reflexivity.
Qed.

(** A NaN among the operands of nested additions is their result. *)
Ltac nan_term N :=
  first [ exact N
        | apply add_nan_l; nan_term N
        | apply add_nan_r; nan_term N ].

(** A sum that meets a NaN is NaN. *)
Lemma sum_from_nan l : forall acc,
  is_nan acc = true -> is_nan (fold_left PrimFloat.add l acc) = true.
Proof.
  induction l as [|x l IH]; intros acc H; simpl; [exact H|].
  apply IH, add_nan_l, H.
Qed.

Lemma sum_with_nan l : forall acc,
  Exists (fun x => is_nan x = true) l ->
  is_nan (fold_left PrimFloat.add l acc) = true.
Proof.
  induction l as [|x l IH]; intros acc H; simpl.
  - inversion H.
  - apply Exists_cons in H as [H | H].
    + apply sum_from_nan, add_nan_r, H.
    + apply IH, H.
Qed.

Lemma zip_add_nan : forall r b : list float,
  length r = length b ->
  Exists (fun x => is_nan x = true) r \/ Exists (fun x => is_nan x = true) b ->
  Exists (fun x => is_nan x = true) (zip_with PrimFloat.add r b).
Proof.
  induction r as [|x r IH]; intros [|y b] L H; simpl in *; try discriminate.
  - destruct H as [H | H]; inversion H.
  - injection L as L.
    destruct H as [H | H]; apply Exists_cons in H as [H | H].
    + left. apply add_nan_l, H.
    + right. apply IH; auto.
    + left. apply add_nan_r, H.
    + right. apply IH; auto.
Qed.

(** A NaN among the running sums or the values to come stays among the
    running sums or the values left over. *)
Lemma add_blocks_nan : forall k (r a : list float),
  length r = 8%nat -> (8 * k <= length a)%nat ->
  Exists (fun x => is_nan x = true) r \/ Exists (fun x => is_nan x = true) a ->
  let (r', rest) := np.add_blocks k r a in
  length r' = 8%nat
  /\ (Exists (fun x => is_nan x = true) r'
      \/ Exists (fun x => is_nan x = true) rest).
Proof.
  induction k as [|k IH]; intros r a Lr La H; simpl.
  - split; assumption.
  - assert (Lf : length (firstn 8 a) = 8%nat) by (rewrite length_take; lia).
    apply IH.
    + rewrite length_zip_with. lia.
    + rewrite length_drop. lia.
    + destruct H as [H | H].
      * left. apply zip_add_nan; [lia | left; exact H].
      * rewrite <- (firstn_skipn 8 a) in H.
        apply Exists_app in H as [H | H].
        -- left. apply zip_add_nan; [lia | right; exact H].
        -- right. exact H.
Qed.

Lemma block_sum_nan (a : list float) :
  Exists (fun x => is_nan x = true) a -> is_nan (np.block_sum a) = true.
Proof.
  intros H. unfold np.block_sum.
  destruct (Nat.lt_ge_cases (length a) 8) as [Hs | Hl].
  - assert (E : forall p, (length (fst p) < 8)%nat ->
        match p with
        | ([r0; r1; r2; r3; r4; r5; r6; r7], rest) =>
            fold_left PrimFloat.add rest
              (((r0 + r1) + (r2 + r3)) + ((r4 + r5) + (r6 + r7)))
        | _ => fold_left PrimFloat.add a 0
        end = fold_left PrimFloat.add a 0).
    { intros [r rest] L. simpl in L.
      do 8 (destruct r as [|? r]; [reflexivity|]).
      destruct r; simpl in L; [lia | reflexivity]. }
    rewrite E.
    + apply sum_with_nan, H.
    + replace (length a / 8)%nat with 0%nat
        by (symmetry; apply Nat.div_small; lia).
      simpl. rewrite length_take. lia.
  - pose proof (add_blocks_nan (length a / 8 - 1) (firstn 8 a) (skipn 8 a))
      as B.
    destruct (np.add_blocks _ _ _) as [r rest].
    destruct B as [L N].
    + rewrite length_take. lia.
    + rewrite length_drop.
      pose proof (Nat.div_mod_eq (length a) 8). lia.
    + rewrite <- (firstn_skipn 8 a) in H. apply Exists_app in H. exact H.
    + do 8 (destruct r as [|? r]; [discriminate L|]).
      destruct r; [|discriminate L].
      destruct N as [N | N]; [|apply sum_with_nan, N].
      apply sum_from_nan.
      repeat (apply Exists_cons in N as [N | N]); [..| inversion N];
        nan_term N.
Qed.

Lemma pairwise_sum_nan : forall fuel (a : list float),
  Exists (fun x => is_nan x = true) a ->
  is_nan (np.pairwise_sum fuel a) = true.
Proof.
  induction fuel as [|fuel IH]; intros a H; cbn [np.pairwise_sum];
    (destruct (length a <? 8)%nat; [apply sum_with_nan, H|]);
    (destruct (length a <=? 128)%nat; [apply block_sum_nan, H|]).
  - apply block_sum_nan, H.
  - set (n2 := (length a / 2 - (length a / 2) mod 8)%nat).
    rewrite <- (firstn_skipn n2 a) in H.
    apply Exists_app in H as [H | H].
    + apply add_nan_l, IH, H.
    + apply add_nan_r, IH, H.
Qed.

(** [np.sum] of an array that holds a NaN is NaN. *)
Lemma np_sum_nan (a : list float) :
  Exists (fun x => is_nan x = true) a -> is_nan (np.sum a) = true.
Proof. intros H. apply add_nan_r, pairwise_sum_nan, H. Qed.

End NaN.

(** With an observed intensity equal to zero among the data, the Rwp that
    [_Rwp_eval] returns is NaN, whatever the simulated spectrum. *)
Theorem Rwp_eval_zero_intensity simul_int exp_int r :
  Exists (fun e => is_zero e = true) exp_int ->
  _Rwp_eval simul_int exp_int = Ok r ->
  is_nan r = true.
Proof.
  intros Z. unfold _Rwp_eval.
  destruct (np.broadcast2 PrimFloat.sub exp_int simul_int) as [d|e];
    [simpl | discriminate].
  destruct (np.broadcast2 PrimFloat.mul _ (map np.square d)) as [t|e];
    [simpl | discriminate].
  unfold np.broadcast2.
  rewrite !length_map, broadcast_len_same. simpl.
  rewrite bc_same_length by (rewrite !length_map; reflexivity).
  intros E. inversion E; subst. clear E.
  apply sqrt_nan, div_nan_r, np_sum_nan.
  clear -Z. induction Z as [e l Hz | e l Hz IH]; simpl.
  - left. apply weight_of_zero, Hz.
  - right. exact IH.
Qed.

Lemma Rwp_eval_zero_intensity_witness :
  exists r, _Rwp_eval [1; 2; 3]%float [1; 0; 2]%float = Ok r
            /\ is_nan r = true.
Proof.
  eexists. split; [reflexivity|].
  apply (Rwp_eval_zero_intensity [1; 2; 3]%float [1; 0; 2]%float).
  - right. left. reflexivity.
  - reflexivity.
Defined.

Lemma set_peak_func_accepts_witness :
  set_peak_func no_exp (Some good_func) (Some [0; 0]%float) sample_calc
  = (mkXRDCalculator (c_lambdax sample_calc) (theta2_digits sample_calc)
       (baseline sample_calc) (Some good_func) (Some [0; 0]%float), Ok tt).
Proof.
  apply (set_peak_func_accepts no_exp good_func (Some [0; 0]%float)
           sample_calc).
  - vm_compute. discriminate.
  - vm_compute. discriminate.
Defined.

(* ===================================================================== *)
(** * More on the peak set of the enumeration *)

Lemma mask_map {A B} (f : A -> B) fl : forall l : list A,
  mask fl (map f l) = map f (mask fl l).
Proof.
  induction fl as [|b fl IH]; intros [|x l]; try reflexivity.
  simpl map. rewrite !mask_cons, IH. destruct b; reflexivity.
Qed.

Lemma mask_Forall {A} (P : A -> Prop) fl : forall l : list A,
  Forall P l -> Forall P (mask fl l).
Proof.
  induction fl as [|b fl IH]; intros l H; [constructor|].
  destruct H as [|x l Hx Hl]; [constructor|].
  rewrite mask_cons. destruct b; [constructor|]; auto.
Qed.

(** An array zipped with its indices pairs every value with its place. *)
Lemma zip_seq_lookup {A} (l : list A) : forall k,
  Forall (fun p => (k <= snd p)%nat /\ l !! (snd p - k)%nat = Some (fst p))
    (zip l (seq k (length l))).
Proof.
  induction l as [|x l IH]; intros k; simpl; constructor.
  - simpl. split; [lia|]. rewrite Nat.sub_diag. reflexivity.
  - eapply Forall_impl; [apply (IH (S k))|].
    intros [v n] [Hle Hl]; simpl in *. split; [lia|].
    replace (n - k)%nat with (S (n - S k)) by lia. exact Hl.
Qed.

(** Each value [np.unique] returns stands in the array at the index
    returned with it. *)
Lemma np_unique_index ar :
  Forall2 (fun v n => ar !! n = Some v) (fst (fst (np_unique ar)))
    (snd (fst (np_unique ar))).
Proof.
  unfold np_unique; simpl.
  set (sorted := stable_sort (zip ar (seq 0 (length ar)))).
  rewrite !mask_map.
  assert (H : Forall (fun p => ar !! snd p = Some (fst p))
                (mask (unique_flag (map fst sorted)) sorted)).
  { apply mask_Forall, stable_sort_Forall.
    eapply Forall_impl; [apply (zip_seq_lookup ar 0)|].
    intros [v n] [_ Hl]; simpl in *. rewrite Nat.sub_0_r in Hl. exact Hl. }
  induction H as [|[v n] l Hp Hl IH]; simpl; constructor; assumption.
Qed.

Section PeakSetFields.

Variable Atoms : Type.
Variable Setting : Type.
Variable cart2abc_cell : Atoms -> list (list float).
Variable hall_number : Atoms -> Z.
Variable get_sel_rule_from_hall : Z -> option (hkl -> bool).
Variable get_sel_rule_from_international :
  Z -> Setting -> option (hkl -> bool).
Variable hkl2d2_matgen : list (list float) -> list (list float).
Variable minimum_supcell : float -> list (list float) -> Z * Z * Z.
Variable np_arcsin : float -> float.
Variable np_round : float -> Z -> float.

Let peaks :=
  powder_peaks Atoms Setting cart2abc_cell hall_number get_sel_rule_from_hall
    get_sel_rule_from_international hkl2d2_matgen minimum_supcell np_arcsin
    np_round.
Let angle := rounded_angle np_arcsin np_round.

(** The run of [powder_peaks]: either it raises on the store as it was, or
    it appends the five arrays built from the selected grid. *)
Lemma powder_peaks_run self atoms latt_abc n o (h h' : list pyobj) r :
  peaks self atoms latt_abc n o h = (h', r) ->
  (exists e, r = Raise e /\ h' = h)
  \/ exists latt sel grid ds angles,
       resolve_lattice Atoms Setting cart2abc_cell hall_number
         get_sel_rule_from_hall get_sel_rule_from_international atoms
         latt_abc n o = Ok (latt, sel)
       /\ selected_grid hkl2d2_matgen minimum_supcell np_arcsin np_round self
            latt sel = Ok (grid, ds, angles)
       /\ h' = h ++ [FloatArray (fst (fst (np_unique angles)));
                     HklGroups
                       (map (fun g => np_take (0, 0, 0) grid
                               (np_where
                                  (map (Nat.eqb g) (snd (np_unique angles)))))
                          (seq 0 (length (fst (fst (np_unique angles))))));
                     HklArray
                       (np_take (0, 0, 0) grid (snd (fst (np_unique angles))));
                     FloatArray
                       (np_take 0%float ds (snd (fst (np_unique angles))));
                     FloatArray
                       (repeat 0%float
                          (length (fst (fst (np_unique angles)))))]
       /\ r = Ok (mkXraySpectrum (length h) (length h + 1) (length h + 2)
                    (length h + 3) (length h + 4) (c_lambdax self)).
Proof.
  unfold peaks, powder_peaks, bind, lift.
  destruct (resolve_lattice _ _ _ _ _ _ _ _ _ _) as [[latt sel]|e] eqn:L;
    [|intros E; inversion E; left; eauto].
  destruct (selected_grid _ _ _ _ _ _ _) as [[[grid ds] angles]|e] eqn:G;
    [|intros E; inversion E; left; eauto].
  destruct (np_unique angles) as [[unique index] inverse] eqn:U.
  unfold alloc, ret. intros E. inversion E; subst. clear E.
  right. exists latt, sel, grid, ds, angles.
  split; [reflexivity|]. split; [exact G|]. rewrite U. cbn [fst snd]. split.
  - rewrite <- !app_assoc. reflexivity.
  - rewrite !length_app. cbn [length]. do 2 f_equal; lia.
Qed.

(** [powder_peaks] writes into no object of the store it is run on: when it
    raises the store is as it was, and when it returns the store has grown
    by the five arrays of the peak set, which the record points to in the
    order of its fields; the intensities are zeros, one per angle, and the
    wavelength is the calculator's. *)
Theorem powder_peaks_allocates_peak_set self atoms latt_abc n o
    (h h' : list pyobj) r :
  peaks self atoms latt_abc n o h = (h', r) ->
  match r with
  | Raise _ => h' = h
  | Ok x =>
      exists th g u d,
        h' = h ++ [FloatArray th; HklGroups g; HklArray u; FloatArray d;
                   FloatArray (repeat 0%float (length th))]
        /\ x = mkXraySpectrum (length h) (length h + 1) (length h + 2)
                 (length h + 3) (length h + 4) (c_lambdax self)
  end.
Proof.
  intros E.
  apply powder_peaks_run in E
    as [(e & -> & ->) | (latt & sel & grid & ds & angles & _ & _ & -> & ->)].
  - reflexivity.
  - do 4 eexists. split; reflexivity.
Qed.

(** Each angle of a peak set returned by [powder_peaks] is the rounded
    angle of the inverse distance stored at the same index. *)
Theorem powder_peaks_angle_of_invd self atoms latt_abc n o
    (h h' : list pyobj) x :
  peaks self atoms latt_abc n o h = (h', Ok x) ->
  exists th d,
    h' !! theta2 x = Some (FloatArray th)
    /\ h' !! invd x = Some (FloatArray d)
    /\ th = map (angle self) d.
Proof.
  intros E.
  apply powder_peaks_run in E
    as [(e & D & _) | (latt & sel & grid & ds & angles & _ & G & -> & R)];
    [discriminate D|].
  inversion R; subst x. clear R. cbn [theta2 invd].
  do 2 eexists.
  split. { rewrite lookup_app_r by lia. rewrite Nat.sub_diag. reflexivity. }
  split. { rewrite lookup_app_r by lia.
           replace (length h + 3 - length h)%nat with 3%nat by lia.
           reflexivity. }
  apply selected_grid_angles in G as (_ & _ & -> & _).
  pose proof (np_unique_index (map (rounded_angle np_arcsin np_round self) ds))
    as I.
  unfold np_take, angle.
  set (vs := fst (fst (np_unique _))) in *.
  set (ks := snd (fst (np_unique _))) in *.
  clearbody vs ks.
  induction I as [|v k vs ks Hv Hs IH]; simpl; [reflexivity|].
  f_equal; [|exact IH].
  change (map (rounded_angle np_arcsin np_round self) ds)
    with (rounded_angle np_arcsin np_round self <$> ds) in Hv.
  rewrite list_lookup_fmap in Hv.
  destruct (ds !! k) as [dk|] eqn:L; [|discriminate Hv].
  rewrite (nth_lookup_Some _ _ _ _ L). simpl in Hv. congruence.
Qed.

End PeakSetFields.

Lemma powder_peaks_allocates_peak_set_witness :
  match snd toy_run with
  | Raise _ => fst toy_run = []
  | Ok x =>
      exists th g u d,
        fst toy_run
        = [] ++ [FloatArray th; HklGroups g; HklArray u; FloatArray d;
                 FloatArray (repeat 0%float (length th))]
        /\ x = mkXraySpectrum (length (A := pyobj) []) (length (A := pyobj) [] + 1)
                 (length (A := pyobj) [] + 2) (length (A := pyobj) [] + 3)
                 (length (A := pyobj) [] + 4) (c_lambdax toy_calc)
  end.
Proof.
  apply (powder_peaks_allocates_peak_set unit unit
           (fun _ => [[1; 1; 1]; [1; 1; 1]]%float) (fun _ => 0) toy_hall
           toy_international toy_hkl2d2 toy_supcell toy_arcsin toy_round
           toy_calc None (Some [[1; 1; 1]; [1; 1; 1]]%float) 1 tt []
           (fst toy_run) (snd toy_run)).
  vm_compute. reflexivity.
Defined.

Lemma powder_peaks_angle_of_invd_witness :
  exists th d,
    fst toy_run !! theta2 toy_spectrum = Some (FloatArray th)
    /\ fst toy_run !! invd toy_spectrum = Some (FloatArray d)
    /\ th = map (rounded_angle toy_arcsin toy_round toy_calc) d.
Proof.
  apply (powder_peaks_angle_of_invd unit unit
           (fun _ => [[1; 1; 1]; [1; 1; 1]]%float) (fun _ => 0) toy_hall
           toy_international toy_hkl2d2 toy_supcell toy_arcsin toy_round
           toy_calc None (Some [[1; 1; 1]; [1; 1; 1]]%float) 1 tt []
           (fst toy_run) toy_spectrum).
  vm_compute. reflexivity.
Defined.

(* ===================================================================== *)
(** * Counting the peaks *)

Section FloatEquality.

Local Open Scope float_scope.

Lemma float_eqb_refl a : number a -> (a =? a) = true.
Proof.
  unfold number, is_nan. intros H. apply negb_false_iff in H. exact H.
Qed.

Lemma SFcompare_Some_l x y c : SFcompare x y = Some c -> x <> S754_nan.
Proof. intros H ->. discriminate H. Qed.

Lemma float_eqb_trans a b c :
  (a =? b) = true -> (b =? c) = true -> (a =? c) = true.
Proof.
  rewrite !FloatAxioms.eqb_spec. unfold SFeqb.
  destruct (SFcompare (Prim2SF a) (Prim2SF b)) as [[| |]|] eqn:C1;
    try discriminate.
  destruct (SFcompare (Prim2SF b) (Prim2SF c)) as [[| |]|] eqn:C2;
    try discriminate.
  intros _ _.
  pose proof (SFcompare_Some_l _ _ _ C1) as Na.
  destruct (SFcompare_Eq _ _ C1) as [E1 | (s1 & s1' & E1 & E1')];
    destruct (SFcompare_Eq _ _ C2) as [E2 | (s2 & s2' & E2 & E2')].
  - rewrite <- E2, <- E1, SFcompare_refl by assumption. reflexivity.
  - rewrite E2', E1, E2. reflexivity.
  - rewrite E1, <- E2, E1'. reflexivity.
  - rewrite E1, E2'. reflexivity.
Qed.

(** [<] does not tell two equal numbers apart on the right either. *)
Lemma float_lt_eq_r x y q :
  (y =? q) = true -> (x <? y) = true -> (x <? q) = true.
Proof.
  rewrite !FloatAxioms.ltb_spec, FloatAxioms.eqb_spec.
  unfold SFltb, SFeqb.
  destruct (SFcompare (Prim2SF y) (Prim2SF q)) as [[| |]|] eqn:C;
    try discriminate.
  intros _.
  destruct (SFcompare_Eq _ _ C) as [-> | (s & s' & -> & ->)];
    [trivial|].
  destruct (Prim2SF x) as [[|]|[|]| |[|] m e]; simpl; trivial.
Qed.

Lemma float_lt_irrefl a : (a <? a) = false.
Proof.
  rewrite FloatAxioms.ltb_spec. unfold SFltb.
  destruct (SFcompare (Prim2SF a) (Prim2SF a)) as [c|] eqn:C; [|reflexivity].
  pose proof (SFcompare_antisym _ _ _ C) as C'. rewrite C in C'.
  destruct c; try reflexivity; discriminate C'.
Qed.

End FloatEquality.

Lemma StronglySorted_middle {A} (R : A -> A -> Prop) l1 x l2 :
  StronglySorted R (l1 ++ x :: l2) ->
  Forall (fun y => R y x) l1 /\ StronglySorted R l2 /\ Forall (R x) l2.
Proof.
  induction l1 as [|y l1 IH]; simpl; intros H;
    apply StronglySorted_inv in H as [H F].
  - repeat split; [constructor | assumption | assumption].
  - destruct (IH H) as (F1 & S2 & F2). repeat split; try assumption.
    constructor; [|exact F1].
    rewrite Forall_forall in F. apply F.
    apply elem_of_app. right. left.
Qed.

(** A strictly ascending list whose every element equals some element of
    another strictly ascending list is no longer than that list. *)
Lemma ascending_no_longer A : forall B,
  StronglySorted float_lt A -> StronglySorted float_lt B ->
  (forall a, a ∈ A -> exists b, b ∈ B /\ PrimFloat.eqb a b = true) ->
  (length A <= length B)%nat.
Proof.
  induction A as [|a A IH]; intros B SA SB Cover; simpl; [lia|].
  apply StronglySorted_inv in SA as [SA FA].
  destruct (Cover a ltac:(left)) as (b & Hb & Eab).
  apply list_elem_of_split in Hb as (B1 & B2 & ->).
  destruct (StronglySorted_middle _ _ _ _ SB) as (F1 & S2 & F2).
  assert (L : (length A <= length B2)%nat).
  { apply IH; [assumption | assumption |].
    intros a' Ha'.
    destruct (Cover a' ltac:(right; exact Ha')) as (b' & Hb' & Eab').
    exists b'. split; [|exact Eab'].
    assert (Lt : float_lt b b').
    { rewrite Forall_forall in FA. specialize (FA _ Ha').
      unfold float_lt in *.
      eapply float_lt_eq_r; [exact Eab'|].
      eapply float_eq_lt; [exact Eab | exact FA]. }
    apply elem_of_app in Hb' as [Hb' | Hb'].
    - exfalso. rewrite Forall_forall in F1. specialize (F1 _ Hb').
      unfold float_lt in *.
      pose proof (float_lt_trans _ _ _ Lt F1) as Bad.
      rewrite float_lt_irrefl in Bad. discriminate Bad.
    - apply elem_of_cons in Hb' as [-> | Hb']; [|exact Hb'].
      exfalso. unfold float_lt in Lt.
      rewrite float_lt_irrefl in Lt. discriminate Lt. }
  rewrite length_app. simpl. lia.
Qed.

Lemma sort_insert_perm x l : sort_insert x l ≡ₚ x :: l.
Proof.
  induction l as [|y l IH]; simpl; [reflexivity|].
  destruct (np_lt (fst y) (fst x)); [|reflexivity].
  rewrite IH. apply Permutation_swap.
Qed.

(** The sort only rearranges. *)
Lemma stable_sort_perm l : stable_sort l ≡ₚ l.
Proof.
  induction l as [|x l IH]; simpl; [reflexivity|].
  rewrite sort_insert_perm, IH. reflexivity.
Qed.

Lemma sorted_values_perm ar :
  map fst (stable_sort (zip ar (seq 0 (length ar)))) ≡ₚ ar.
Proof.
  change (map fst ?l) with (fst <$> l).
  rewrite stable_sort_perm. rewrite fst_zip; [reflexivity|].
  rewrite length_seq. lia.
Qed.

Lemma mask_elem_of {A} fl (l : list A) v : v ∈ mask fl l -> v ∈ l.
Proof.
  intros H.
  assert (F : Forall (fun w => w ∈ l) (mask fl l)).
  { apply mask_Forall, Forall_forall. auto. }
  rewrite Forall_forall in F. apply F, H.
Qed.

(** The values [np.unique] returns are values of the array. *)
Lemma np_unique_values ar v : v ∈ fst (fst (np_unique ar)) -> v ∈ ar.
Proof.
  unfold np_unique; simpl. intros H. apply mask_elem_of in H.
  rewrite sorted_values_perm in H. exact H.
Qed.

(** Every element of an ascending list of numbers equals the number the
    list follows or an element kept after dropping the repetitions. *)
Lemma changes_cover l : forall prev v,
  Forall number l -> v ∈ l ->
  PrimFloat.eqb v prev = true
  \/ exists u, u ∈ mask (changes prev l) l /\ PrimFloat.eqb v u = true.
Proof.
  induction l as [|x l IH]; intros prev v Hn Hv.
  - apply elem_of_nil in Hv. contradiction.
  - apply Forall_cons in Hn as [Hx Hl]. simpl. rewrite mask_cons.
    assert (Vx : PrimFloat.eqb v x = true ->
                 PrimFloat.eqb v prev = true
                 \/ exists u,
                      u ∈ (if negb (PrimFloat.eqb x prev)
                           then x :: mask (changes x l) l
                           else mask (changes x l) l)
                      /\ PrimFloat.eqb v u = true).
    { intros E. destruct (PrimFloat.eqb x prev) eqn:P; simpl.
      - left. eapply float_eqb_trans; eassumption.
      - right. exists x. split; [left | exact E]. }
    apply elem_of_cons in Hv as [-> | Hv].
    + apply Vx, float_eqb_refl, Hx.
    + destruct (IH x v Hl Hv) as [E | (u & Hu & E)]; [apply Vx, E|].
      right. exists u. split; [|exact E].
      destruct (negb (PrimFloat.eqb x prev)); [right|]; exact Hu.
Qed.

(** Every value of an array of numbers equals one of the values
    [np.unique] returns. *)
Lemma np_unique_cover ar v :
  Forall number ar -> v ∈ ar ->
  exists u, u ∈ fst (fst (np_unique ar)) /\ PrimFloat.eqb v u = true.
Proof.
  intros Hn Hv. unfold np_unique; simpl.
  pose proof (sorted_values_perm ar) as P.
  rewrite <- P in Hv. rewrite <- P in Hn. clear P.
  destruct (map fst _) as [|x aux]; simpl.
  - apply elem_of_nil in Hv. contradiction.
  - rewrite mask_cons. apply Forall_cons in Hn as [Hx Ha].
    apply elem_of_cons in Hv as [-> | Hv].
    + exists x. split; [left | apply float_eqb_refl, Hx].
    + destruct (changes_cover aux x v Ha Hv) as [E | (u & Hu & E)].
      * exists x. split; [left | exact E].
      * exists u. split; [right; exact Hu | exact E].
Qed.

(** An array of numbers whose values all occur in another has no more
    distinct values. *)
Lemma np_unique_count a a0 :
  Forall number a0 -> (forall v, v ∈ a -> v ∈ a0) ->
  (length (fst (fst (np_unique a))) <= length (fst (fst (np_unique a0))))%nat.
Proof.
  intros N0 Sub.
  assert (N : Forall number a).
  { apply Forall_forall. intros v Hv. rewrite Forall_forall in N0.
    apply N0, Sub, Hv. }
  apply ascending_no_longer.
  - apply np_unique_ascending, N.
  - apply np_unique_ascending, N0.
  - intros u Hu. apply np_unique_values in Hu.
    apply np_unique_cover; [exact N0 | apply Sub, Hu].
Qed.

Lemma np_where_all_from (mask : list bool) : forall k,
  Forall (fun b => b = true) mask ->
  map fst (filter (fun p => snd p = true) (zip (seq k (length mask)) mask))
  = seq k (length mask).
Proof.
  induction mask as [|b mask IH]; intros k H; simpl; [reflexivity|].
  apply Forall_cons in H as [-> H].
  rewrite filter_cons. simpl.
  destruct (decide (true = true)) as [_|N]; [|congruence].
  simpl. f_equal. apply IH, H.
Qed.

(** A mask that holds everywhere selects every index. *)
Lemma np_where_all mask :
  Forall (fun b => b = true) mask -> np_where mask = seq 0 (length mask).
Proof. apply np_where_all_from. Qed.

Lemma np_take_seq {A} (d : A) l : np_take d l (seq 0 (length l)) = l.
Proof.
  unfold np_take. rewrite <- (map_nth_seq (fun v => v) d l).
  apply map_id.
Qed.

Section Selection.

Variable Atoms : Type.
Variable Setting : Type.
Variable cart2abc_cell : Atoms -> list (list float).
Variable hall_number : Atoms -> Z.
Variable get_sel_rule_from_hall : Z -> option (hkl -> bool).
Variable get_sel_rule_from_international :
  Z -> Setting -> option (hkl -> bool).
Variable hkl2d2_matgen : list (list float) -> list (list float).
Variable minimum_supcell : float -> list (list float) -> Z * Z * Z.
Variable np_arcsin : float -> float.
Variable np_round : float -> Z -> float.

Let peaks :=
  powder_peaks Atoms Setting cart2abc_cell hall_number get_sel_rule_from_hall
    get_sel_rule_from_international hkl2d2_matgen minimum_supcell np_arcsin
    np_round.
Let angle := rounded_angle np_arcsin np_round.
Let grid_of := selected_grid hkl2d2_matgen minimum_supcell np_arcsin np_round.

(** On one lattice, the angles left by a selection rule are among those
    left by a rule that accepts every reflection. *)
Lemma selected_grid_subset self latt sel all g ds a g0 ds0 a0 :
  (forall r, all r = true) ->
  grid_of self latt sel = Ok (g, ds, a) ->
  grid_of self latt all = Ok (g0, ds0, a0) ->
  forall v, v ∈ a -> v ∈ a0.
Proof.
  intros Hall. unfold grid_of, selected_grid.
  destruct (PrimFloat.eqb (c_lambdax self) 0); [discriminate|].
  destruct (minimum_supcell _ _) as [[bh bk] bl].
  set (grid := meshgrid _ _ _).
  set (dgrid := map (inv_d (hkl2d2_matgen latt)) grid).
  set (valid_i := np_where _).
  set (vds := np_take 0%float dgrid valid_i).
  destruct (np_take (0, 0, 0) grid valid_i) as [|r vg] eqn:G;
    [discriminate|].
  rewrite <- G. set (vgrid := np_take (0, 0, 0) grid valid_i).
  assert (Lv : length vgrid = length vds)
    by (unfold vgrid, vds; rewrite !length_np_take; reflexivity).
  intros E E0. injection E as <- <- <-. injection E0 as <- <- <-.
  assert (All : np_where (map all vgrid) = seq 0 (length vds)).
  { rewrite np_where_all;
      [rewrite (length_map all vgrid); f_equal; exact Lv|].
    apply Forall_fmap, Forall_forall. intros x _. apply Hall. }
  rewrite All, np_take_seq.
  intros v Hv.
  change (map ?f ?l) with (f <$> l) in Hv |- *.
  apply list_elem_of_fmap in Hv as (t & -> & Ht).
  apply list_elem_of_fmap in Ht as (d & -> & Hd).
  assert (F : Forall (fun w => w ∈ vds)
                (np_take 0%float vds (np_where (map sel vgrid)))).
  { apply np_take_Forall; [rewrite length_map; exact Lv|].
    apply Forall_forall. auto. }
  rewrite Forall_forall in F.
  eapply list_elem_of_fmap_2'; [|reflexivity].
  eapply list_elem_of_fmap_2'; [|reflexivity].
  apply F, Hd.
Qed.

(** The lattice and the rule [powder_peaks] works on when it is given a
    lattice. *)
Lemma resolve_lattice_given latt_abc n o latt sel :
  resolve_lattice Atoms Setting cart2abc_cell hall_number
    get_sel_rule_from_hall get_sel_rule_from_international None
    (Some latt_abc) n o = Ok (latt, sel) ->
  latt = latt_abc /\ get_sel_rule_from_international n o = Some sel.
Proof.
  unfold resolve_lattice.
  destruct (negb _); [discriminate|].
  destruct (get_sel_rule_from_international n o); [|discriminate].
  intros E. inversion E; subst. split; reflexivity.
Qed.

(** What the test of the enumeration asks: on one lattice, the peak set
    found with a selection rule has no more angles than the peak set found
    with a rule that accepts every reflection. *)
Theorem selection_rule_only_removes_peaks self latt_abc n0 o0 n o all
    (h0 h0' h1 h1' : list pyobj) x0 x1 :
  (forall d, PrimFloat.ltb d (2 / c_lambdax self) = true ->
             PrimFloat.ltb 0 d = true -> number (angle self d)) ->
  get_sel_rule_from_international n0 o0 = Some all ->
  (forall r, all r = true) ->
  peaks self None (Some latt_abc) n0 o0 h0 = (h0', Ok x0) ->
  peaks self None (Some latt_abc) n o h1 = (h1', Ok x1) ->
  exists th0 th1,
    h0' !! theta2 x0 = Some (FloatArray th0)
    /\ h1' !! theta2 x1 = Some (FloatArray th1)
    /\ (length th1 <= length th0)%nat.
Proof.
  intros Hnum Hall0 Hall E0 E1.
  apply powder_peaks_run in E0
    as [(e & D & _) | (l0 & s0 & g0 & ds0 & a0 & R0 & G0 & -> & X0)];
    [discriminate D|].
  apply powder_peaks_run in E1
    as [(e & D & _) | (l1 & s1 & g1 & ds1 & a1 & R1 & G1 & -> & X1)];
    [discriminate D|].
  apply resolve_lattice_given in R0 as [-> S0].
  apply resolve_lattice_given in R1 as [-> S1].
  rewrite Hall0 in S0. inversion S0; subst s0. clear S0.
  inversion X0; subst x0. inversion X1; subst x1. clear X0 X1.
  cbn [theta2].
  do 2 eexists.
  split. { rewrite lookup_app_r by lia. rewrite Nat.sub_diag. reflexivity. }
  split. { rewrite lookup_app_r by lia. rewrite Nat.sub_diag. reflexivity. }
  apply np_unique_count.
  - apply selected_grid_angles in G0 as (_ & _ & -> & Hin).
    apply Forall_fmap, Forall_forall. intros d Hd. simpl.
    rewrite Forall_forall in Hin. specialize (Hin d Hd).
    apply andb_true_iff in Hin as [Hlt Hpos]. apply Hnum; assumption.
  - apply (selected_grid_subset self latt_abc s1 all g1 ds1 a1 g0 ds0 a0
             Hall G1 G0).
Qed.

End Selection.

Lemma selection_rule_only_removes_peaks_witness :
  exists th0 th1,
    fst (centred_run 1) !! theta2 (centred_spectrum 1)
    = Some (FloatArray th0)
    /\ fst (centred_run 2) !! theta2 (centred_spectrum 2)
       = Some (FloatArray th1)
    /\ (length th1 <= length th0)%nat.
Proof.
  apply (selection_rule_only_removes_peaks unit unit (fun _ => cubic_abc)
           (fun _ => 0) toy_hall centred_international toy_hkl2d2
           toy_supcell toy_arcsin toy_round toy_calc cubic_abc 1 tt 2 tt
           (fun _ => true) [] (fst (centred_run 1)) []
           (fst (centred_run 2))).
  - intros d _ _. unfold number, rounded_angle, toy_round.
    set (y := (_ / np_pi)%float).
    destruct (is_nan y) eqn:E; [reflexivity | exact E].
  - reflexivity.
  - reflexivity.
  - vm_compute. reflexivity.
  - vm_compute. reflexivity.
Defined.

(** On the toy lattice the rule of the body-centred group leaves one of
    the three angles. *)
Example centred_run_peaks :
  exists a b c,
    fst (centred_run 1) !! theta2 (centred_spectrum 1)
    = Some (FloatArray [a; b; c])
    /\ fst (centred_run 2) !! theta2 (centred_spectrum 2)
       = Some (FloatArray [b]).
Proof. do 3 eexists. split; vm_compute; reflexivity. Qed.

(* ===================================================================== *)
(** * The invariant of the peak set *)

(** A strictly ascending list holds no value twice. *)
Lemma ascending_NoDup l : StronglySorted float_lt l -> NoDup l.
Proof.
  induction 1 as [|a l S IH F]; constructor; [|exact IH].
  intros Hin. rewrite Forall_forall in F. specialize (F a Hin).
  unfold float_lt in F. rewrite float_lt_irrefl in F. discriminate F.
Qed.

(** The values [np.unique] keeps are those at the indices it returns. *)
Lemma np_unique_take {A} (f : A -> float) (d : A) (ds : list A) :
  fst (fst (np_unique (map f ds)))
  = map f (np_take d ds (snd (fst (np_unique (map f ds))))).
Proof.
  pose proof (np_unique_index (map f ds)) as I.
  unfold np_take.
  set (vs := fst (fst (np_unique _))) in *.
  set (ks := snd (fst (np_unique _))) in *.
  clearbody vs ks.
  induction I as [|v k vs ks Hv Hs IH]; simpl; [reflexivity|].
  f_equal; [|exact IH].
  change (map f ds) with (f <$> ds) in Hv.
  rewrite list_lookup_fmap in Hv.
  destruct (ds !! k) as [dk|] eqn:L; [|discriminate Hv].
  rewrite (nth_lookup_Some _ _ _ _ L). simpl in Hv. congruence.
Qed.

Lemma np_unique_lengths ar :
  length (snd (fst (np_unique ar))) = length (fst (fst (np_unique ar))).
Proof. symmetry. eapply Forall2_length, np_unique_index. Qed.

Section PeakSetInvariant.

Variable Atoms : Type.
Variable Setting : Type.
Variable cart2abc_cell : Atoms -> list (list float).
Variable hall_number : Atoms -> Z.
Variable get_sel_rule_from_hall : Z -> option (hkl -> bool).
Variable get_sel_rule_from_international :
  Z -> Setting -> option (hkl -> bool).
Variable hkl2d2_matgen : list (list float) -> list (list float).
Variable minimum_supcell : float -> list (list float) -> Z * Z * Z.
Variable np_arcsin : float -> float.
Variable np_round : float -> Z -> float.

Let peaks :=
  powder_peaks Atoms Setting cart2abc_cell hall_number get_sel_rule_from_hall
    get_sel_rule_from_international hkl2d2_matgen minimum_supcell np_arcsin
    np_round.
Let angle := rounded_angle np_arcsin np_round.

(** C8: every peak set [powder_peaks] returns has five arrays of one
    length; its [theta2] is strictly ascending, so that it holds no value
    twice, and each of its angles is the angle of the inverse distance at
    the same index, rounded to the [theta2_digits] of the calculator.

    [np.arcsin] and [np.round] are parameters here.  The hypothesis is
    what numpy's give: a number for every reflection that is kept, whose
    inverse distance [d] lies above 0 and below [2 / lambdax], so that
    the arc sine is taken of a quotient between 0 and 1. *)
Theorem powder_peaks_theta2_ascending self atoms latt_abc n o
    (h h' : list pyobj) x :
  (forall d, PrimFloat.ltb d (2 / c_lambdax self) = true ->
             PrimFloat.ltb 0 d = true -> number (angle self d)) ->
  peaks self atoms latt_abc n o h = (h', Ok x) ->
  exists th g u d it,
    h' !! theta2 x = Some (FloatArray th)
    /\ h' !! hkl_groups x = Some (HklGroups g)
    /\ h' !! hkl_unique x = Some (HklArray u)
    /\ h' !! invd x = Some (FloatArray d)
    /\ h' !! intensity x = Some (FloatArray it)
    /\ StronglySorted float_lt th /\ NoDup th
    /\ th = map (angle self) d
    /\ length g = length th /\ length u = length th
    /\ length d = length th /\ length it = length th.
Proof.
  intros Hnum E.
  apply powder_peaks_run in E
    as [(e & D & _) | (latt & sel & grid & ds & angles & _ & G & -> & R)];
    [discriminate D|].
  inversion R; subst x. clear R.
  cbn [theta2 hkl_groups hkl_unique invd intensity].
  apply selected_grid_angles in G as (_ & _ & -> & Hin).
  assert (Asc : StronglySorted float_lt
                  (fst (fst (np_unique (map (angle self) ds))))).
  { apply np_unique_ascending, Forall_fmap, Forall_forall.
    intros d Hd. simpl.
    rewrite Forall_forall in Hin. specialize (Hin d Hd).
    apply andb_true_iff in Hin as [Hlt Hpos]. apply Hnum; assumption. }
  do 5 eexists.
  split. { rewrite lookup_app_r by lia. rewrite Nat.sub_diag. reflexivity. }
  split. { rewrite lookup_app_r by lia.
           replace (length h + 1 - length h)%nat with 1%nat by lia.
           reflexivity. }
  split. { rewrite lookup_app_r by lia.
           replace (length h + 2 - length h)%nat with 2%nat by lia.
           reflexivity. }
  split. { rewrite lookup_app_r by lia.
           replace (length h + 3 - length h)%nat with 3%nat by lia.
           reflexivity. }
  split. { rewrite lookup_app_r by lia.
           replace (length h + 4 - length h)%nat with 4%nat by lia.
           reflexivity. }
  split; [exact Asc|].
  split; [exact (ascending_NoDup _ Asc)|].
  split; [apply (np_unique_take (angle self) 0%float ds)|].
  rewrite length_map, length_seq, !length_np_take, repeat_length.
  rewrite np_unique_lengths. repeat split; reflexivity.
Qed.

End PeakSetInvariant.

Lemma powder_peaks_theta2_ascending_witness :
  exists th g u d it,
    fst toy_run !! theta2 toy_spectrum = Some (FloatArray th)
    /\ fst toy_run !! hkl_groups toy_spectrum = Some (HklGroups g)
    /\ fst toy_run !! hkl_unique toy_spectrum = Some (HklArray u)
    /\ fst toy_run !! invd toy_spectrum = Some (FloatArray d)
    /\ fst toy_run !! intensity toy_spectrum = Some (FloatArray it)
    /\ StronglySorted float_lt th /\ NoDup th
    /\ th = map (rounded_angle toy_arcsin toy_round toy_calc) d
    /\ length g = length th /\ length u = length th
    /\ length d = length th /\ length it = length th.
Proof.
  apply (powder_peaks_theta2_ascending unit unit
           (fun _ => [[1; 1; 1]; [1; 1; 1]]%float) (fun _ => 0) toy_hall
           toy_international toy_hkl2d2 toy_supcell toy_arcsin toy_round
           toy_calc None (Some [[1; 1; 1]; [1; 1; 1]]%float) 1 tt []
           (fst toy_run) toy_spectrum).
  - intros d _ _. unfold number, rounded_angle, toy_round.
    set (y := (_ / np_pi)%float).
    destruct (is_nan y) eqn:E; [reflexivity | exact E].
  - vm_compute. reflexivity.
Defined.
